(** * The letter crawler and the merge step of [main.py]

    A shallow embedding of [extract_page_entries], [get_next],
    [extract_letter_entries], [download_letter_entries] and
    [download_entries], with the properties of the crawl (retry, backoff,
    pagination) and of the merge (union, replace, file format).

    Python values are modelled as follows.
    - [str] is the list of the code points of a Python string.
    - A text file is the [str] that [f.write] stored; files live in a finite
      map from paths to contents.  The model is the POSIX one: writing does
      not translate ["\n"], reading translates ["\r\n"] and ["\r"] to
      ["\n"] (universal newlines, the default of [open]).
    - An exception is a value of [exn]; a call that may raise returns a
      [result].
    - The generator [extract_letter_entries] is run to its end, as
      [list(...)] does in [download_letter_entries]; the loop takes fuel,
      one unit per iteration of [while url:].
    - What the network answers is a function [urlopen] of the letter
      crawled, of the number of earlier fetches of its crawl and of the
      URL.
    - The tasks of a batch are run one after the other, in the order of
      their submission; each writes the file of its letter.
    - BeautifulSoup's queries, [str.casefold], [str.format] and the
      iteration order of [set] are parameters of the sections below; the
      parse of a page by [BeautifulSoup(html, "html.parser")] is taken to
      return. *)

From Stdlib Require Import ZArith NArith List Strings.String Strings.Ascii.
From Stdlib Require Import Sorting.Sorted Sorting.Permutation Lia.
From stdpp Require Import gmap list.
Import ListNotations.

Open Scope Z_scope.

(** ** Python strings *)

Module Py.

Definition str := list N.

(** A string literal of the source, for the characters below 256. *)
Definition lit (s : string) : str :=
  map N_of_ascii (list_ascii_of_string s).

Definition LF : N := 10%N.
Definition CR : N := 13%N.

(** [c.isspace()], the characters [str.strip()] removes. *)
Definition isspace (c : N) : bool :=
  ((9 <=? c) && (c <=? 13) || (28 <=? c) && (c <=? 32)
   || (c =? 133) || (c =? 160) || (c =? 5760)
   || (8192 <=? c) && (c <=? 8202)
   || (c =? 8232) || (c =? 8233) || (c =? 8239) || (c =? 8287)
   || (c =? 12288))%N.

Fixpoint lstrip (s : str) : str :=
  match s with
  | [] => []
  | c :: s' => if isspace c then lstrip s' else s
  end.

Definition rstrip (s : str) : str := rev (lstrip (rev s)).

(** [s.strip()] *)
Definition strip (s : str) : str := rstrip (lstrip s).

(** [sep.join(l)] *)
Fixpoint join (sep : str) (l : list str) : str :=
  match l with
  | [] => []
  | [x] => x
  | x :: l' => x ++ sep ++ join sep l'
  end.

(** The translation [open(file, "r")] applies to what it reads. *)
Fixpoint universal_newlines (s : str) : str :=
  match s with
  | [] => []
  | c :: s' =>
      if (c =? CR)%N then
        LF :: match s' with
              | [] => []
              | d :: s'' =>
                  if (d =? LF)%N then universal_newlines s''
                  else universal_newlines s'
              end
      else c :: universal_newlines s'
  end.

(** The lines of a text, each with its ["\n"] when it has one. *)
Fixpoint split_lines (s : str) : list str :=
  match s with
  | [] => []
  | c :: s' =>
      if (c =? LF)%N then [c] :: split_lines s'
      else match split_lines s' with
           | [] => [[c]]
           | l :: ls => (c :: l) :: ls
           end
  end.

(** [f.readlines()] on a file opened for reading in text mode. *)
Definition readlines (content : str) : list str :=
  split_lines (universal_newlines content).

(** [a < b] on strings: lexicographic on code points. *)
Fixpoint str_lt (a b : str) : bool :=
  match a, b with
  | _, [] => false
  | [], _ :: _ => true
  | x :: a', y :: b' =>
      if (x <? y)%N then true
      else if (y <? x)%N then false
      else str_lt a' b'
  end.

(** [bool(s)] for a string, and for a value that may be [None]. *)
Definition truthy (s : str) : bool :=
  match s with [] => false | _ :: _ => true end.

Definition truthy_opt (o : option str) : bool :=
  match o with None => false | Some s => truthy s end.

(** [sorted(l, key=key)].  Python's sort is stable and compares keys with
    [<] only; a stable sort has one possible result, which insertion from
    the right computes. *)
Section Sorted.
Context {A : Type} (key : A -> str).

Fixpoint insert_by (x : A) (l : list A) : list A :=
  match l with
  | [] => [x]
  | y :: l' =>
      if str_lt (key y) (key x) then y :: insert_by x l'
      else x :: l
  end.

Definition sorted (l : list A) : list A := foldr insert_by [] l.

(** [a] may stand before [b] in a list sorted by [key]: the key of [b]
    is not below the key of [a]. *)
Definition key_le (a b : A) : Prop := str_lt (key b) (key a) = false.
End Sorted.

(** Exceptions raised on the paths of [main.py]. *)
Inductive exn :=
| IndexError
| AttributeError
| KeyError
| ValueError
| FileNotFoundError
| URLError (reason : str).

Inductive result (A : Type) :=
| Ok (a : A)
| Raise (e : exn).
Arguments Ok {A} a.
Arguments Raise {A} e.

Definition bind {A B} (r : result A) (k : A -> result B) : result B :=
  match r with
  | Ok a => k a
  | Raise e => Raise e
  end.

End Py.

Import Py.

Notation "'let!' x := r 'in' k" := (bind r (fun x => k))
  (at level 10, x name, r at level 100, k at level 200).

(** ** Constants of [main.py] *)

(** [API.format(letter)]: the template ends with its only field. *)
Definition API (letter : str) : str :=
  lit "https://www.urbandictionary.com/browse.php?character=" ++ letter.

Definition SITE : str := lit "https://www.urbandictionary.com".

Definition MAX_ATTEMPTS : Z := 10.
Definition DELAY : Z := 10.

(** ** Pages *)

(** What [li.find("a")] gives for a list item: [None] for an item without
    anchor, otherwise the anchor's [.string], itself [None] when the anchor
    is not a single piece of text. *)
Definition li_tag : Type := option (option str).

(** What the crawl does to the outside, latest event first. *)
Inductive event (html : Type) :=
| Progress (letter message : str)
| Fetch (url : str) (answer : result (Z * html))
| Print (letter : str) (code : Z)
| Sleep (seconds : Z).
Arguments Progress {html} letter message.
Arguments Fetch {html} url answer.
Arguments Print {html} letter code.
Arguments Sleep {html} seconds.

(** The variables of the loop of [extract_letter_entries], with what it has
    yielded and done so far. *)
Record crawl (html : Type) := Crawl {
  url : option str;
  attempt : Z;
  fetches : nat;
  yielded : list (list str);
  events : list (event html)
}.
Arguments Crawl {html}.
Arguments url {html}.
Arguments attempt {html}.
Arguments fetches {html}.
Arguments yielded {html}.
Arguments events {html}.

(** How the generator ends: the condition of [while url:] is false, the
    [break] of the retry ceiling, or an exception. *)
Inductive ending :=
| Exhausted
| GaveUp
| Failed (e : exn).

Section Crawler.

Variable html : Type.

(** [soup.find_all("ul", class_="mt-3 columns-2 md:columns-3")], each
    element given by its [find_all("li")]. *)
Variable word_lists : html -> list (list li_tag).

(** [soup.find("a", {"rel": "next"})]: [None] when there is no such
    anchor, otherwise its [href] attribute if it has one. *)
Variable rel_next : html -> option (option str).

(** [urllib.request.urlopen(url)] under the installed opener, which hands
    every HTTP answer back whatever its status: the status and body of
    the [n]-th fetch of the crawl of [letter], or the error raised. *)
Variable urlopen : str -> nat -> str -> result (Z * html).

Fixpoint anchors (lis : list li_tag) : result (list str) :=
  match lis with
  | [] => Ok []
  | None :: _ => Raise AttributeError
  | Some a :: lis' =>
      let! rest := anchors lis' in
      Ok (match a with
          | Some s => if truthy s then s :: rest else rest
          | None => rest
          end)
  end.

(** [list(extract_page_entries(html))] *)
Definition extract_page_entries (page : html) : result (list str) :=
  match word_lists page with
  | [] => Raise IndexError
  | ul :: _ => anchors ul
  end.

Definition get_next (page : html) : result (option str) :=
  match rel_next page with
  | Some (Some href) => Ok (Some (SITE ++ href))
  | Some None => Raise KeyError
  | None => Ok None
  end.

(** One evaluation of the condition of [while url:] and, when it holds,
    one run of the body.  [None] means the loop goes on. *)
Definition iteration (letter : str) (st : crawl html)
  : crawl html * option ending :=
  match url st with
  | Some u =>
      if truthy u then
        let answer := urlopen letter (fetches st) u in
        let log := Fetch u answer :: Progress letter u :: events st in
        let clock := S (fetches st) in
        match answer with
        | Raise e =>
            (Crawl (url st) (attempt st) clock (yielded st) log,
             Some (Failed e))
        | Ok (code, content) =>
            if code =? 200 then
              match extract_page_entries content with
              | Raise e =>
                  (Crawl (url st) (attempt st) clock (yielded st) log,
                   Some (Failed e))
              | Ok entries =>
                  let pages := yielded st ++ [entries] in
                  match get_next content with
                  | Raise e =>
                      (Crawl (url st) (attempt st) clock pages log,
                       Some (Failed e))
                  | Ok next => (Crawl next 0 clock pages log, None)
                  end
              end
            else
              let log := Print letter code :: log in
              let attempt' := attempt st + 1 in
              if attempt' >? MAX_ATTEMPTS then
                (Crawl (url st) attempt' clock (yielded st) log,
                 Some GaveUp)
              else
                (Crawl (url st) attempt' clock (yielded st)
                   (Sleep (DELAY * attempt') :: log),
                 None)
        end
      else (st, Some Exhausted)
  | None => (st, Some Exhausted)
  end.

Fixpoint loop (fuel : nat) (letter : str) (st : crawl html)
  : option (crawl html * ending) :=
  match fuel with
  | O => None
  | S fuel' =>
      match iteration letter st with
      | (st', Some e) => Some (st', e)
      | (st', None) => loop fuel' letter st'
      end
  end.

Definition start (letter : str) : crawl html :=
  Crawl (Some (API letter)) 0 0 [] [].

(** The generator run to its end; [None] when the fuel does not reach
    the end. *)
Definition extract_letter_entries (fuel : nat) (letter : str)
  : option (crawl html * ending) :=
  loop fuel letter (start letter).

(** [list(extract_letter_entries(letter, progress_callback))] *)
Definition pages_of (r : crawl html * ending) : result (list (list str)) :=
  match snd r with
  | Failed e => Raise e
  | Exhausted | GaveUp => Ok (yielded (fst r))
  end.

(** [itertools.chain.from_iterable(list(extract_letter_entries(...)))] *)
Definition entries_of (r : crawl html * ending) : result (list str) :=
  let! pages := pages_of r in
  Ok (concat pages).

(** The state after [n] iterations, when the loop has not ended before. *)
Fixpoint after (n : nat) (letter : str) (st : crawl html)
  : option (crawl html) :=
  match n with
  | O => Some st
  | S n' =>
      match iteration letter st with
      | (st', None) => after n' letter st'
      | (_, Some _) => None
      end
  end.

(** The answers with status 200 among the fetches of a log, latest
    first. *)
Fixpoint pages_fetched (log : list (event html)) : list html :=
  match log with
  | [] => []
  | Fetch _ (Ok (code, content)) :: log' =>
      if code =? 200 then content :: pages_fetched log'
      else pages_fetched log'
  | _ :: log' => pages_fetched log'
  end.

(** The URLs fetched, latest first. *)
Fixpoint urls_fetched (log : list (event html)) : list str :=
  match log with
  | [] => []
  | Fetch u _ :: log' => u :: urls_fetched log'
  | _ :: log' => urls_fetched log'
  end.

(** The seconds slept, latest first. *)
Fixpoint sleeps (log : list (event html)) : list Z :=
  match log with
  | [] => []
  | Sleep s :: log' => s :: sleeps log'
  | _ :: log' => sleeps log'
  end.

(** The failed fetches since the last answer with status 200. *)
Fixpoint failed_in_a_row (log : list (event html)) : nat :=
  match log with
  | [] => 0
  | Fetch _ (Ok (code, _)) :: log' =>
      if code =? 200 then 0%nat else S (failed_in_a_row log')
  | Fetch _ (Raise _) :: _ => 0
  | _ :: log' => failed_in_a_row log'
  end.

End Crawler.

Arguments start {html} letter.
Arguments pages_of {html} r.
Arguments entries_of {html} r.
Arguments pages_fetched {html} log.
Arguments urls_fetched {html} log.
Arguments sleeps {html} log.
Arguments failed_in_a_row {html} log.

(** ** Merging and writing *)

Section Merge.

(** [str.casefold] *)
Variable casefold : str -> str.

(** The order in which a [set] built by adding the elements of a list, in
    turn, is iterated.  Python leaves it unspecified. *)
Variable set_order : list str -> list str.

(** [set(l)], as the list of its elements in iteration order. *)
Definition set_of (l : list str) : list str := set_order l.

(** [a.union(b)]: a copy of [a] to which the elements of [b] are added. *)
Definition set_union (a b : list str) : list str := set_order (a ++ b).

(** Lines 87 to 95 of [download_letter_entries]; [prior] is the content
    of the letter's file, [None] when [open] raises
    [FileNotFoundError]. *)
Definition all_data (remove_dead : bool) (prior : option str)
    (entries : list str) : list str :=
  if remove_dead then entries
  else
    match prior with
    | Some content =>
        let old_data := map strip (readlines content) in
        sorted casefold (set_union (set_of old_data) (set_of entries))
    | None => entries
    end.

End Merge.

(** ["\n".join(all_data) + "\n"], the text given to [f.write]. *)
Definition written (data : list str) : str := join [LF] data ++ [LF].

(** An entry that a file gives back as it was written: no white space at
    its ends and no line break inside. *)
Definition clean (e : str) : Prop :=
  strip e = e /\ Forall (fun c => c <> LF /\ c <> CR) e.

Section Download.

Variable html : Type.
Variable word_lists : html -> list (list li_tag).
Variable rel_next : html -> option (option str).
Variable urlopen : str -> nat -> str -> result (Z * html).
Variable casefold : str -> str.
Variable set_order : list str -> list str.

(** [file.format(letter)], for a template that [format] accepts. *)
Variable format : str -> str -> str.

(** The files after the call, or the exception that ends it, with the
    events of the call.  Writing is taken to succeed; the timing message
    is left out. *)
Definition download_letter_entries (fuel : nat) (letter file : str)
    (remove_dead : bool) (fs : gmap str str)
  : option (result (gmap str str) * list (event html)) :=
  let file := format file letter in
  match extract_letter_entries html word_lists rel_next urlopen
          fuel letter with
  | None => None
  | Some r =>
      match entries_of r with
      | Raise e => Some (Raise e, events (fst r))
      | Ok entries =>
          let data :=
            all_data casefold set_order remove_dead (fs !! file) entries in
          Some (Ok (<[file := written data]> fs),
                Progress letter (lit "Done") :: events (fst r))
      end
  end.

(** The submitted tasks, run one after the other in the order of
    submission, as a pool of one worker runs them.  A task that raises
    leaves its exception in its future, which nothing reads. *)
Fixpoint tasks (fuel : nat) (letters : list str) (file : str)
    (remove_dead : bool) (fs : gmap str str) : option (gmap str str) :=
  match letters with
  | [] => Some fs
  | letter :: letters' =>
      match download_letter_entries fuel letter file remove_dead fs with
      | None => None
      | Some (Ok fs', _) => tasks fuel letters' file remove_dead fs'
      | Some (Raise _, _) => tasks fuel letters' file remove_dead fs
      end
  end.

(** [ThreadPoolExecutor] refuses a number of workers that is not
    positive. *)
Definition download_entries (fuel : nat) (letters : list str) (file : str)
    (remove_dead : bool) (max_workers : Z) (fs : gmap str str)
  : option (result (gmap str str)) :=
  if max_workers <=? 0 then Some (Raise ValueError)
  else
    match tasks fuel letters file remove_dead fs with
    | None => None
    | Some fs' => Some (Ok fs')
    end.

End Download.

(** ** Instances used in the examples *)

(** [str.casefold] on strings of ASCII characters. *)
Definition ascii_casefold (s : str) : str :=
  map (fun c => if ((65 <=? c) && (c <=? 90))%N then (c + 32)%N else c) s.

(** [template.format(letter)] for a template whose braces are those of
    [{0}] fields. *)
Fixpoint format0 (template letter : str) : str :=
  match template with
  | [] => []
  | c :: t =>
      match t with
      | d :: e :: t' =>
          if ((c =? 123) && (d =? 48) && (e =? 125))%N
          then letter ++ format0 t' letter
          else c :: format0 t letter
      | _ => c :: format0 t letter
      end
  end.

(** A set iterated in the order of the hashes of its elements. *)
Definition hash_order (hash : str -> str) (l : list str) : list str :=
  sorted hash (remove_dups l).

(** Two hash functions, as two runs of the interpreter have them. *)
Definition seed1 (s : str) : str := s.
Definition seed2 (s : str) : str := map (fun c => (1114111 - c)%N) s.

(** A page given by what the queries of the crawler find in it. *)
Record page := Page {
  page_lists : list (list li_tag);
  page_next : option (option str)
}.

(** A page with one word list of plain anchors. *)
Definition listing (words : list str) (next : option str) : page :=
  Page [map (fun w => Some (Some w)) words] (option_map Some next).

(** A server that answers the fetches of every crawl from a script, and
    [final] once the script is over. *)
Definition scripted (script : list (result (Z * page)))
    (final : result (Z * page)) (letter : str) (n : nat) (u : str)
  : result (Z * page) :=
  nth n script final.

Definition page2 : str := lit "/browse.php?page=2".

(** Two pages of words, the second one the last. *)
Definition steady : str -> nat -> str -> result (Z * page) :=
  scripted
    [Ok (200, listing [lit "apple"; lit "banana"] (Some page2));
     Ok (200, listing [lit "cherry"] None)]
    (Raise (URLError (lit "no such page"))).

(** A first page of words, and status 503 from then on. *)
Definition overloaded : str -> nat -> str -> result (Z * page) :=
  scripted [Ok (200, listing [lit "apple"] (Some page2))]
    (Ok (503, Page [] None)).

(** A fetch that raises, before a page that would be served. *)
Definition unreachable : str -> nat -> str -> result (Z * page) :=
  scripted [Raise (URLError (lit "timed out"))]
    (Ok (200, listing [lit "apple"] None)).

(** One page, in the order of the site and with a repetition. *)
Definition unsorted : str -> nat -> str -> result (Z * page) :=
  scripted []
    (Ok (200, listing [lit "banana"; lit "apple"; lit "banana"] None)).

(** One page without words. *)
Definition wordless : str -> nat -> str -> result (Z * page) :=
  scripted [] (Ok (200, listing [] None)).

(** The crawl of A after a first page of [words] that links to [page2]. *)
Definition on_second_page (words : list str) : crawl page :=
  Crawl (Some (SITE ++ page2)) 0 1 [words]
    [Fetch (API (lit "A")) (Ok (200, listing words (Some page2)));
     Progress (lit "A") (API (lit "A"))].

(** The state in which a crawl ends, [start] when the fuel is too short. *)
Definition final_state (run : option (crawl page * ending)) : crawl page :=
  match run with
  | Some (st, _) => st
  | None => start (lit "A")
  end.

(** The letter A overloaded, the other letters steady. *)
Definition uneven (letter : str) : nat -> str -> result (Z * page) :=
  if bool_decide (letter = lit "A") then overloaded letter
  else steady letter.

(** ** More observers and the letters of a run *)

(** The messages given to [progress_callback], latest first. *)
Fixpoint progress_messages {html} (log : list (event html)) : list str :=
  match log with
  | [] => []
  | Progress _ message :: log' => message :: progress_messages log'
  | _ :: log' => progress_messages log'
  end.

Section Letters.

(** [str.upper] *)
Variable upper : str -> str.

(** Lines 213 to 217 of [main.py]: the positional arguments in upper case
    or, when there is none, the rows of the input file, stripped.
    [ifile] is the content of that file, [None] when it does not exist. *)
Definition main_letters (args : list str) (ifile : option str)
  : result (list str) :=
  match map upper args with
  | [] =>
      match ifile with
      | Some content => Ok (map strip (readlines content))
      | None => Raise FileNotFoundError
      end
  | letters => Ok letters
  end.

End Letters.

(** [str.upper] on strings of ASCII characters. *)
Definition ascii_upper (s : str) : str :=
  map (fun c => if ((97 <=? c) && (c <=? 122))%N then (c - 32)%N else c) s.

(** What a task returned and logged, and the files a batch left; defaults
    stand for a run that the fuel does not end. *)
Definition outcome_of (run : option (result (gmap str str) * list (event page)))
  : result (gmap str str) :=
  match run with
  | Some (r, _) => r
  | None => Raise ValueError
  end.

Definition log_of (run : option (result (gmap str str) * list (event page)))
  : list (event page) :=
  match run with
  | Some (_, log) => log
  | None => []
  end.

Definition files_of (r : result (gmap str str)) : gmap str str :=
  match r with
  | Ok fs => fs
  | Raise _ => ∅
  end.

(** A page whose word list has an anchor without text and an empty one. *)
Definition ragged : page :=
  Page [[Some (Some (lit "apple")); Some None; Some (Some []);
         Some (Some (lit "banana"))]]
       None.

(** * Properties *)

(** ** The crawl of a letter *)

Section CrawlerFacts.

Variable html : Type.
Variable word_lists : html -> list (list li_tag).
Variable rel_next : html -> option (option str).
Variable urlopen : str -> nat -> str -> result (Z * html).

Local Abbreviation iteration := (iteration html word_lists rel_next urlopen).
Local Abbreviation loop := (loop html word_lists rel_next urlopen).
Local Abbreviation after := (after html word_lists rel_next urlopen).
Local Abbreviation extract_letter_entries :=
  (extract_letter_entries html word_lists rel_next urlopen).
Local Abbreviation extract_page_entries := (extract_page_entries html word_lists).
Local Abbreviation get_next := (get_next html rel_next).

(** Case analysis on one iteration, along the tests of the source. *)
Ltac iteration_cases st :=
  unfold iteration;
  destruct (url st) as [?u|] eqn:?Hurl; simpl;
  [ destruct (truthy _) eqn:?Htruthy; simpl;
    [ destruct (urlopen _ _ _) as [[?code ?content]|?e] eqn:?Hopen; simpl;
      [ destruct (_ =? 200) eqn:?Hcode; simpl;
        [ destruct (extract_page_entries _)
            as [?entries|?e] eqn:?Hentries; simpl;
          [ destruct (get_next _)
              as [?next|?e] eqn:?Hnext; simpl | ]
        | destruct (_ >? MAX_ATTEMPTS) eqn:?Hmax; simpl ]
      | ]
    | ]
  | ].

Lemma after_last k letter st0 :
  after (S k) letter st0 =
  match after k letter st0 with
  | Some st =>
      match iteration letter st with
      | (st', None) => Some st'
      | (_, Some _) => None
      end
  | None => None
  end.
Proof.
  revert st0. induction k as [|k IH]; intros st0.
  - simpl. destruct (iteration letter st0) as [st' [e|]]; reflexivity.
  - change (after (S (S k)) letter st0) with
      (match iteration letter st0 with
       | (st', None) => after (S k) letter st'
       | (_, Some _) => None
       end).
    change (after (S k) letter st0) with
      (match iteration letter st0 with
       | (st', None) => after k letter st'
       | (_, Some _) => None
       end).
    destruct (iteration letter st0) as [st' [e|]]; [reflexivity|].
    apply IH.
Qed.

(** An invariant of the body holds in every state the loop reaches. *)
Lemma after_invariant (P : crawl html -> Prop) letter st0 :
  P st0 ->
  (forall st st', P st -> iteration letter st = (st', None) -> P st') ->
  forall k st, after k letter st0 = Some st -> P st.
Proof.
  intros H0 Hstep k. induction k as [|k IH]; intros st Hk.
  - simpl in Hk. congruence.
  - rewrite after_last in Hk.
    destruct (after k letter st0) as [st1|]; [|discriminate].
    destruct (iteration letter st1) as [st2 [e|]] eqn:Hit; [discriminate|].
    inversion Hk; subst. eapply Hstep; [apply IH; reflexivity | exact Hit].
Qed.

Lemma loop_after k m letter st0 st :
  after k letter st0 = Some st ->
  loop (k + m) letter st0 = loop m letter st.
Proof.
  revert st0. induction k as [|k IH]; intros st0 Hk; simpl in *.
  - congruence.
  - destruct (iteration letter st0) as [st' [e|]]; [discriminate|].
    apply IH, Hk.
Qed.

Lemma loop_more m extra letter st r :
  loop m letter st = Some r -> loop (m + extra) letter st = Some r.
Proof.
  revert st. induction m as [|m IH]; intros st Hm; simpl in *.
  - discriminate.
  - destruct (iteration letter st) as [st' [e|]]; [assumption|].
    apply IH, Hm.
Qed.

(** The counter [attempt] counts the failed fetches since the last
    success, and a running loop never holds more than [MAX_ATTEMPTS]. *)
Lemma attempt_counts k letter st :
  after k letter (start letter) = Some st ->
  attempt st = Z.of_nat (failed_in_a_row (events st))
  /\ 0 <= attempt st <= MAX_ATTEMPTS.
Proof.
  apply (after_invariant
           (fun st => attempt st = Z.of_nat (failed_in_a_row (events st))
                      /\ 0 <= attempt st <= MAX_ATTEMPTS)).
  - simpl. unfold MAX_ATTEMPTS. lia.
  - clear st. intros st st' [Hat Hle]. iteration_cases st;
      intros Hit; inversion Hit; subst; clear Hit; simpl;
      rewrite ?Hcode; unfold MAX_ATTEMPTS in *; try lia.
Qed.

(** A URL the loop holds is never the empty string. *)
Lemma url_truthy k letter st u :
  after k letter (start letter) = Some st ->
  url st = Some u -> truthy u = true.
Proof.
  intros Hk. revert u. revert Hk.
  apply (after_invariant
           (fun st => forall u, url st = Some u -> truthy u = true)).
  - intros u Hu. inversion Hu. reflexivity.
  - clear st. intros st st' Hst. iteration_cases st;
      intros Hit; inversion Hit; subst; clear Hit; simpl; auto.
    unfold get_next in Hnext.
    destruct (rel_next content) as [[href|]|]; inversion Hnext; subst.
    + intros u' Hu'. inversion Hu'. reflexivity.
    + discriminate.
Qed.

(** The URL the loop holds is the index page of the letter until a page
    has been fetched, and then what [get_next] found in the last page
    fetched. *)
Lemma url_from_last_page k letter st :
  after k letter (start letter) = Some st ->
  match pages_fetched (events st) with
  | [] => url st = Some (API letter)
  | content :: _ => get_next content = Ok (url st)
  end.
Proof.
  apply (after_invariant
           (fun st => match pages_fetched (events st) with
                      | [] => url st = Some (API letter)
                      | content :: _ => get_next content = Ok (url st)
                      end)).
  - reflexivity.
  - clear st. intros st st' Hst. iteration_cases st;
      intros Hit; inversion Hit; subst; clear Hit; simpl;
      rewrite ?Hcode; auto.
Qed.

(** A failed fetch that leaves room under the ceiling: same URL, one more
    attempt, a sleep of [DELAY * attempt]. *)
Lemma iteration_retry letter st u code content :
  url st = Some u -> truthy u = true ->
  urlopen letter (fetches st) u = Ok (code, content) ->
  code <> 200 -> attempt st + 1 <= MAX_ATTEMPTS ->
  iteration letter st =
  (Crawl (Some u) (attempt st + 1) (S (fetches st)) (yielded st)
     (Sleep (DELAY * (attempt st + 1)) :: Print letter code
      :: Fetch u (Ok (code, content)) :: Progress letter u :: events st),
   None).
Proof.
  intros Hu Ht Ho Hc Ha. unfold iteration. rewrite Hu, Ht, Ho.
  destruct (code =? 200) eqn:E; [lia|].
  destruct (attempt st + 1 >? MAX_ATTEMPTS) eqn:E'; [lia|]. reflexivity.
Qed.

(** The failed fetch that passes the ceiling ends the loop. *)
Lemma iteration_give_up letter st u code content :
  url st = Some u -> truthy u = true ->
  urlopen letter (fetches st) u = Ok (code, content) ->
  code <> 200 -> attempt st + 1 > MAX_ATTEMPTS ->
  iteration letter st =
  (Crawl (Some u) (attempt st + 1) (S (fetches st)) (yielded st)
     (Print letter code
      :: Fetch u (Ok (code, content)) :: Progress letter u :: events st),
   Some GaveUp).
Proof.
  intros Hu Ht Ho Hc Ha. unfold iteration. rewrite Hu, Ht, Ho.
  destruct (code =? 200) eqn:E; [lia|].
  destruct (attempt st + 1 >? MAX_ATTEMPTS) eqn:E'; [|lia]. reflexivity.
Qed.

(** From [m] attempts below the point of giving up, [m] failed fetches
    end the loop. *)
Lemma give_up_after m letter st u :
  (1 <= m)%nat ->
  attempt st = MAX_ATTEMPTS + 1 - Z.of_nat m ->
  url st = Some u -> truthy u = true ->
  (forall i, (i < m)%nat ->
     exists code content,
       urlopen letter (fetches st + i) u = Ok (code, content)
       /\ code <> 200) ->
  exists st',
    loop m letter st = Some (st', GaveUp)
    /\ fetches st' = (fetches st + m)%nat
    /\ yielded st' = yielded st
    /\ urls_fetched (events st')
       = repeat u m ++ urls_fetched (events st).
Proof.
  revert st. induction m as [|m IH]; intros st Hm Ha Hu Ht Hfail; [lia|].
  destruct (Hfail 0%nat) as (code & content & Ho & Hc); [lia|].
  rewrite Nat.add_0_r in Ho.
  destruct m as [|m].
  - simpl loop.
    rewrite (iteration_give_up _ _ _ _ _ Hu Ht Ho Hc) by lia.
    eexists; repeat split; simpl; lia.
  - change (loop (S (S m)) letter st) with
      (match iteration letter st with
       | (st', Some e) => Some (st', e)
       | (st', None) => loop (S m) letter st'
       end).
    rewrite (iteration_retry _ _ _ _ _ Hu Ht Ho Hc) by lia.
    match goal with
    | |- context [loop (S m) letter ?s] => set (st1 := s)
    end.
    destruct (IH st1) as (st' & Hl & Hf & Hy & Hus).
    + lia.
    + simpl. lia.
    + reflexivity.
    + exact Ht.
    + intros i Hi. simpl.
      replace (S (fetches st + i)) with (fetches st + S i)%nat by lia.
      apply Hfail. lia.
    + rewrite Hl. exists st'. split; [reflexivity|].
      split; [rewrite Hf; simpl; lia|].
      split; [rewrite Hy; reflexivity|].
      rewrite Hus. simpl.
      f_equal.
      change (u :: urls_fetched (events st))
        with ([u] ++ urls_fetched (events st)).
      rewrite app_assoc, <- repeat_cons. reflexivity.
Qed.

(** C3: a page whose fetches all answer with a status other than 200 ends
    the crawl of its letter after exactly [MAX_ATTEMPTS + 1] = 11 fetches
    of that page.  The count starts at the page: the fetches of the
    pages before it are not charged. *)
Theorem retry_ceiling k letter st u extra :
  after k letter (start letter) = Some st ->
  url st = Some u ->
  failed_in_a_row (events st) = 0%nat ->
  (forall i, (i < 11)%nat ->
     exists code content,
       urlopen letter (fetches st + i) u = Ok (code, content)
       /\ code <> 200) ->
  exists st',
    extract_letter_entries (k + Z.to_nat (MAX_ATTEMPTS + 1) + extra) letter
      = Some (st', GaveUp)
    /\ fetches st' = (fetches st + 11)%nat
    /\ yielded st' = yielded st
    /\ urls_fetched (events st')
       = repeat u 11 ++ urls_fetched (events st).
Proof.
  intros Hk Hu H0 Hfail.
  destruct (attempt_counts _ _ _ Hk) as [Ha _]. rewrite H0 in Ha.
  assert (H11 : (1 <= 11)%nat) by lia.
  assert (Ha' : attempt st = MAX_ATTEMPTS + 1 - Z.of_nat 11)
    by (rewrite Ha; reflexivity).
  pose proof (url_truthy _ _ _ _ Hk Hu) as Ht.
  destruct (give_up_after 11 letter st u H11 Ha' Hu Ht Hfail)
    as (st' & Hl & Hrest).
  exists st'. split; [|exact Hrest].
  unfold extract_letter_entries. rewrite <- Nat.add_assoc.
  rewrite (loop_after _ _ _ _ _ Hk).
  apply loop_more. exact Hl.
Qed.

(** C4: the [n]-th failed fetch in a row of a page, for [n] up to
    [MAX_ATTEMPTS], is followed by a sleep of [DELAY * n] and by a fetch
    of the same URL; a fetch with status 200 puts the counter back
    to 0. *)
Theorem backoff_linear_and_reset k letter st u code content :
  after k letter (start letter) = Some st ->
  url st = Some u ->
  urlopen letter (fetches st) u = Ok (code, content) ->
  let n := Z.of_nat (S (failed_in_a_row (events st))) in
  (code <> 200 -> n <= MAX_ATTEMPTS ->
   exists st',
     iteration letter st = (st', None)
     /\ events st'
        = Sleep (DELAY * n) :: Print letter code
          :: Fetch u (Ok (code, content)) :: Progress letter u
          :: events st
     /\ url st' = Some u
     /\ yielded st' = yielded st
     /\ urls_fetched (events (fst (iteration letter st')))
        = u :: u :: urls_fetched (events st))
  /\ (code = 200 ->
      forall st', iteration letter st = (st', None) ->
        attempt st' = 0
        /\ failed_in_a_row (events st') = 0%nat
        /\ sleeps (events st') = sleeps (events st)).
Proof.
  intros Hk Hu Ho n.
  destruct (attempt_counts _ _ _ Hk) as [Ha _].
  pose proof (url_truthy _ _ _ _ Hk Hu) as Ht.
  assert (Hn : n = attempt st + 1) by (unfold n; lia).
  split.
  - intros Hc Hle. rewrite Hn in *.
    rewrite (iteration_retry _ _ _ _ _ Hu Ht Ho Hc Hle).
    eexists; repeat split. simpl.
    unfold iteration. simpl. rewrite Ht.
    destruct (urlopen letter (S (fetches st)) u) as [[c2 p2]|e2]; simpl;
      [|reflexivity].
    destruct (c2 =? 200); simpl.
    + destruct (extract_page_entries p2); simpl; [|reflexivity].
      destruct (get_next p2); reflexivity.
    + destruct (_ >? MAX_ATTEMPTS); reflexivity.
  - intros -> st'. unfold iteration. rewrite Hu, Ht, Ho. simpl.
    destruct (extract_page_entries content); simpl; [|discriminate].
    destruct (get_next content); simpl; [|discriminate].
    intros Hit; inversion Hit; subst; clear Hit. simpl. auto.
Qed.

(** C8: the pages of a letter are fetched in the order of their links, a
    URL being fetched only once the page before it has given it; and the
    [N]-th page fetched, when it has no next link, is the last fetch of
    the crawl, whatever the page holds: the loop ends there. *)
Theorem pagination_ends_at_last_page k letter st :
  after k letter (start letter) = Some st ->
  match pages_fetched (events st) with
  | [] => url st = Some (API letter)
  | content :: _ => get_next content = Ok (url st)
  end
  /\ forall u content extra,
       url st = Some u ->
       urlopen letter (fetches st) u = Ok (200, content) ->
       rel_next content = None ->
       exists st',
         fetches st' = S (fetches st)
         /\ length (pages_fetched (events st'))
            = S (length (pages_fetched (events st)))
         /\ match extract_page_entries content with
            | Ok entries =>
                extract_letter_entries (k + 2 + extra) letter
                  = Some (st', Exhausted)
                /\ yielded st' = yielded st ++ [entries]
            | Raise e =>
                extract_letter_entries (k + 2 + extra) letter
                  = Some (st', Failed e)
            end.
Proof.
  intros Hk. split; [exact (url_from_last_page _ _ _ Hk)|].
  intros u content extra Hu Ho Hnone.
  pose proof (url_truthy _ _ _ _ Hk Hu) as Ht.
  unfold extract_letter_entries.
  rewrite <- Nat.add_assoc, (loop_after _ _ _ _ _ Hk).
  set (log := Fetch u (Ok (200, content)) :: Progress letter u :: events st).
  assert (Hit : iteration letter st =
                match extract_page_entries content with
                | Ok entries =>
                    (Crawl None 0 (S (fetches st))
                       (yielded st ++ [entries]) log, None)
                | Raise e =>
                    (Crawl (Some u) (attempt st) (S (fetches st))
                       (yielded st) log, Some (Failed e))
                end).
  { unfold iteration. rewrite Hu, Ht, Ho. simpl.
    unfold get_next. rewrite Hnone.
    destruct (extract_page_entries content); reflexivity. }
  simpl loop. rewrite Hit.
  destruct (extract_page_entries content) as [entries|e].
  - exists (Crawl None 0 (S (fetches st)) (yielded st ++ [entries]) log).
    repeat split.
  - exists (Crawl (Some u) (attempt st) (S (fetches st)) (yielded st) log).
    repeat split.
Qed.

End CrawlerFacts.

(** ** The order of strings and [sorted] *)

Lemma str_lt_irrefl a : str_lt a a = false.
Proof.
  induction a as [|x a IH]; simpl; [reflexivity|].
  rewrite N.ltb_irrefl. exact IH.
Qed.

Lemma str_lt_asym a b : str_lt a b = true -> str_lt b a = false.
Proof.
  revert b. induction a as [|x a IH]; intros [|y b]; simpl; try congruence.
  destruct (N.ltb_spec x y), (N.ltb_spec y x); try congruence; try lia.
  apply IH.
Qed.

(** Two strings neither of which is below the other are the same. *)
Lemma str_lt_total a b :
  str_lt a b = false -> str_lt b a = false -> a = b.
Proof.
  revert b. induction a as [|x a IH]; intros [|y b]; simpl;
    try congruence.
  destruct (N.ltb_spec x y), (N.ltb_spec y x); try congruence; try lia.
  intros H1 H2. f_equal; [lia|]. apply IH; assumption.
Qed.

Lemma str_lt_cotrans a b c :
  str_lt a c = true -> str_lt a b = true \/ str_lt b c = true.
Proof.
  revert b c. induction a as [|x a IH]; intros [|y b] [|z c]; simpl;
    try congruence; auto.
  destruct (N.ltb_spec x z), (N.ltb_spec z x), (N.ltb_spec x y),
    (N.ltb_spec y x), (N.ltb_spec y z), (N.ltb_spec z y);
    try lia; try congruence; auto.
Qed.

Section SortedFacts.

Context {A : Type} (key : A -> str).

Local Abbreviation key_le := (key_le key).

Lemma key_le_trans a b c : key_le a b -> key_le b c -> key_le a c.
Proof.
  unfold key_le. intros Hab Hbc.
  destruct (str_lt (key c) (key a)) eqn:E; [|reflexivity].
  destruct (str_lt_cotrans _ (key b) _ E); congruence.
Qed.

Lemma key_le_antisym a b : key_le a b -> key_le b a -> key a = key b.
Proof. unfold key_le. intros. apply str_lt_total; assumption. Qed.

Lemma insert_by_perm x l : Permutation (insert_by key x l) (x :: l).
Proof.
  induction l as [|y l IH]; simpl; [reflexivity|].
  destruct (str_lt (key y) (key x)); [|reflexivity].
  rewrite IH. apply perm_swap.
Qed.

Lemma sorted_perm l : Permutation (sorted key l) l.
Proof.
  induction l as [|x l IH]; simpl; [reflexivity|].
  rewrite insert_by_perm. constructor. exact IH.
Qed.

Lemma insert_by_sorted x l :
  StronglySorted key_le l -> StronglySorted key_le (insert_by key x l).
Proof.
  induction 1 as [|y l Hl IH Hy]; simpl.
  - repeat constructor.
  - destruct (str_lt (key y) (key x)) eqn:E.
    + constructor; [exact IH|].
      apply Forall_forall. intros z Hz.
      rewrite insert_by_perm in Hz.
      apply elem_of_cons in Hz. destruct Hz as [->|Hz].
      * apply str_lt_asym, E.
      * rewrite Forall_forall in Hy. auto.
    + constructor; [constructor; assumption|].
      constructor; [exact E|].
      eapply Forall_impl; [exact Hy|].
      intros z Hz. eapply key_le_trans; [exact E|exact Hz].
Qed.

Lemma sorted_sorted l : StronglySorted key_le (sorted key l).
Proof.
  induction l as [|x l IH]; simpl; [constructor|].
  apply insert_by_sorted, IH.
Qed.

(** Where the keys tell the elements apart, a list has one sorted
    arrangement. *)
Lemma sorted_unique l1 l2 :
  StronglySorted key_le l1 -> StronglySorted key_le l2 ->
  Permutation l1 l2 ->
  (forall a b, a ∈ l1 -> b ∈ l1 -> key a = key b -> a = b) ->
  l1 = l2.
Proof.
  intros H1. revert l2.
  induction H1 as [|x l1 Hl1 IH Hx]; intros l2 H2 Hp Hinj.
  - apply Permutation_nil in Hp. congruence.
  - destruct H2 as [|y l2 Hl2 Hy].
    + apply Permutation_sym, Permutation_nil in Hp. discriminate.
    + assert (Hxy : x = y).
      { assert (Hin_y : y ∈ x :: l1) by (rewrite Hp; left).
        assert (Hin_x : x ∈ y :: l2) by (rewrite <- Hp; left).
        apply elem_of_cons in Hin_y. destruct Hin_y as [E|Hin_y]; [auto|].
        apply elem_of_cons in Hin_x. destruct Hin_x as [E|Hin_x]; [auto|].
        rewrite Forall_forall in Hx, Hy.
        apply Hinj; [left | right; exact Hin_y |].
        apply key_le_antisym; auto. }
      subst y. f_equal. apply IH; [exact Hl2 | |].
      * eapply Permutation_cons_inv, Hp.
      * intros a b Ha Hb. apply Hinj; right; assumption.
Qed.

End SortedFacts.

(** ** Text files: [strip], [readlines] and what [written] gives back *)

Lemma lstrip_app s t :
  lstrip (s ++ t) = if forallb isspace s then lstrip t else lstrip s ++ t.
Proof.
  induction s as [|c s IH]; simpl; [reflexivity|].
  destruct (isspace c); simpl; [exact IH | reflexivity].
Qed.

Lemma lstrip_spaces s : forallb isspace s = true -> lstrip s = [].
Proof.
  induction s as [|c s IH]; simpl; [reflexivity|].
  destruct (isspace c); simpl; [exact IH | discriminate].
Qed.

Lemma lstrip_Forall (P : N -> Prop) s : Forall P s -> Forall P (lstrip s).
Proof.
  induction 1 as [|c s Hc Hs IH]; simpl; [constructor|].
  destruct (isspace c); [exact IH | constructor; assumption].
Qed.

Lemma strip_Forall (P : N -> Prop) s : Forall P s -> Forall P (strip s).
Proof.
  intros H. unfold strip, rstrip.
  apply Forall_rev, lstrip_Forall, Forall_rev, lstrip_Forall, H.
Qed.

Lemma rstrip_cons c s : isspace c = false -> rstrip (c :: s) = c :: rstrip s.
Proof.
  intros Hc. unfold rstrip. simpl rev. rewrite lstrip_app.
  destruct (forallb isspace (rev s)) eqn:E.
  - rewrite (lstrip_spaces _ E). simpl. rewrite Hc. reflexivity.
  - rewrite rev_app_distr. reflexivity.
Qed.

Lemma rstrip_idem s : rstrip (rstrip s) = rstrip s.
Proof.
  unfold rstrip. rewrite rev_involutive. f_equal.
  generalize (rev s). clear s. intros s.
  induction s as [|c s IH]; simpl; [reflexivity|].
  destruct (isspace c) eqn:E; [exact IH|]. simpl. rewrite E. reflexivity.
Qed.

Lemma lstrip_head s :
  match lstrip s with [] => True | c :: _ => isspace c = false end.
Proof.
  induction s as [|c s IH]; simpl; [exact I|].
  destruct (isspace c) eqn:E; [exact IH | exact E].
Qed.

Lemma strip_idem s : strip (strip s) = strip s.
Proof.
  unfold strip. pose proof (lstrip_head s) as H.
  destruct (lstrip s) as [|c t]; [reflexivity|].
  rewrite (rstrip_cons _ _ H). simpl. rewrite H.
  rewrite (rstrip_cons _ _ H), rstrip_idem. reflexivity.
Qed.

(** White space at the end of a string does not change what [strip]
    keeps of it. *)
Lemma strip_app_space s c : isspace c = true -> strip (s ++ [c]) = strip s.
Proof.
  intros Hc. unfold strip. rewrite lstrip_app.
  destruct (forallb isspace s) eqn:E.
  - simpl. rewrite Hc, (lstrip_spaces _ E). reflexivity.
  - unfold rstrip. rewrite rev_app_distr. simpl. rewrite Hc. reflexivity.
Qed.

Lemma universal_newlines_id s :
  Forall (fun c => c <> CR) s -> universal_newlines s = s.
Proof.
  induction 1 as [|c s Hc Hs IH]; simpl; [reflexivity|].
  destruct (N.eqb_spec c CR); [contradiction|]. rewrite IH. reflexivity.
Qed.

Lemma universal_newlines_no_CR s :
  Forall (fun c => c <> CR) (universal_newlines s).
Proof.
  assert (H : forall n s, (length s <= n)%nat ->
                Forall (fun c => c <> CR) (universal_newlines s)).
  { clear s. induction n as [|n IH]; intros [|c s] Hlen; simpl in *;
      try constructor; try lia.
    - destruct (N.eqb_spec c CR) as [->|Hc]; constructor; try discriminate.
      + destruct s as [|d s]; [constructor|].
        destruct (d =? LF)%N; apply IH; simpl in *; lia.
      + exact Hc.
      + apply IH. lia. }
  apply (H (length s)). lia.
Qed.

(** Every line is a text without ["\n"], followed or not by ["\n"]. *)
Lemma split_lines_shape s :
  Forall (fun l => exists body,
            (l = body ++ [LF] \/ l = body)
            /\ Forall (fun c => c <> LF) body)
         (split_lines s).
Proof.
  induction s as [|c s IH]; simpl; [constructor|].
  destruct (N.eqb_spec c LF) as [->|Hc].
  - constructor; [|exact IH]. exists []. split; [left; reflexivity|constructor].
  - destruct (split_lines s) as [|l ls].
    + repeat constructor. exists [c]. split; [right; reflexivity|].
      repeat constructor. exact Hc.
    + inversion IH as [|? ? (body & Hl & Hb) Hls]; subst.
      constructor; [|exact Hls].
      exists (c :: body). split.
      * destruct Hl as [->| ->]; [left|right]; reflexivity.
      * constructor; assumption.
Qed.

Lemma split_lines_Forall (P : N -> Prop) s :
  Forall P s -> Forall (Forall P) (split_lines s).
Proof.
  induction 1 as [|c s Hc Hs IH]; simpl; [constructor|].
  destruct (c =? LF)%N.
  - constructor; [repeat constructor; exact Hc | exact IH].
  - destruct (split_lines s) as [|l ls].
    + repeat constructor. exact Hc.
    + inversion IH; subst. constructor; [constructor|]; assumption.
Qed.

(** What [strip] keeps of a line that was read is clean. *)
Lemma readlines_clean content :
  Forall clean (map strip (readlines content)).
Proof.
  unfold readlines. apply Forall_map.
  pose proof (split_lines_shape (universal_newlines content)) as Hshape.
  pose proof (split_lines_Forall _ _ (universal_newlines_no_CR content))
    as Hcr.
  induction Hshape as [|l ls (body & Hl & Hb) Hls IH]; [constructor|].
  inversion Hcr as [|? ? Hl_cr Hls_cr]; subst.
  constructor; [|apply IH, Hls_cr].
  split; [apply strip_idem|].
  assert (Hbody : Forall (fun c => c <> LF /\ c <> CR) (strip body)).
  { apply strip_Forall. apply Forall_forall. intros c Hc.
    rewrite Forall_forall in Hb. split; [auto|].
    destruct Hl as [->| ->]; rewrite Forall_forall in Hl_cr;
      apply Hl_cr; [apply elem_of_app; left|]; exact Hc. }
  destruct Hl as [->| ->]; [|exact Hbody].
  rewrite strip_app_space by reflexivity. exact Hbody.
Qed.

Lemma split_lines_line e rest :
  Forall (fun c => c <> LF) e ->
  split_lines (e ++ LF :: rest) = (e ++ [LF]) :: split_lines rest.
Proof.
  induction 1 as [|c e Hc He IH]; simpl; [reflexivity|].
  destruct (N.eqb_spec c LF); [contradiction|]. rewrite IH. reflexivity.
Qed.

Lemma written_cons x d :
  written (x :: d) = x ++ LF :: match d with [] => [] | _ => written d end.
Proof.
  unfold written. destruct d as [|y d]; simpl; [reflexivity|].
  rewrite <- app_assoc. reflexivity.
Qed.

(** Reading the lines of a written file gives the entries back, when they
    are clean and there is one at least. *)
Lemma readlines_written d :
  Forall clean d -> d <> [] ->
  map strip (readlines (written d)) = d.
Proof.
  intros Hd Hne.
  assert (Hcr : Forall (fun c => c <> CR) (written d)).
  { unfold written. apply Forall_app. split; [|repeat constructor; discriminate].
    clear Hne. induction Hd as [|x d [_ Hx] Hd IH]; [constructor|].
    assert (Hx' : Forall (fun c => c <> CR) x)
      by (eapply Forall_impl; [exact Hx | intros c [_ Hc]; exact Hc]).
    destruct d as [|y d]; simpl; [exact Hx'|].
    apply Forall_app. split; [exact Hx'|].
    constructor; [discriminate | exact IH]. }
  unfold readlines. rewrite (universal_newlines_id _ Hcr). clear Hcr.
  induction Hd as [|x d [Hs Hx] Hd IH]; [contradiction|].
  rewrite written_cons, split_lines_line.
  - simpl. rewrite strip_app_space, Hs by reflexivity. f_equal.
    destruct d as [|y d]; [reflexivity|]. apply IH. discriminate.
  - eapply Forall_impl; [exact Hx | intros c [Hc _]; exact Hc].
Qed.

Lemma readlines_written_nil : map strip (readlines (written [])) = [[]].
Proof. reflexivity. Qed.

Lemma split_lines_written d :
Forall (Forall (fun c => c <> LF)) d -> d <> [] ->
split_lines (written d) = map (fun e => e ++ [LF]) d.
Proof.
induction 1 as [|x d Hx Hd IH]; intros Hne; [contradiction|].
rewrite written_cons, (split_lines_line _ _ Hx). simpl. f_equal.
destruct d as [|y d]; [reflexivity|]. apply IH. discriminate.
Qed.

(** ** The merge *)

Section MergeFacts.

Variable casefold : str -> str.

(** The iteration order of sets gives each element of the set once. *)
Variable set_order : list str -> list str.
Hypothesis set_order_NoDup : forall l, NoDup (set_order l).
Hypothesis set_order_elem : forall l x, x ∈ set_order l <-> x ∈ l.

Local Abbreviation all_data := (all_data casefold set_order).
Local Abbreviation key_le := (key_le casefold).

Lemma union_data_elem content entries x :
x ∈ all_data false (Some content) entries
<-> x ∈ map strip (readlines content) \/ x ∈ entries.
Proof.
unfold all_data, set_union, set_of.
rewrite sorted_perm, set_order_elem, elem_of_app, !set_order_elem.
reflexivity.
Qed.

Lemma union_data_NoDup content entries :
NoDup (all_data false (Some content) entries).
Proof.
unfold all_data, set_union. rewrite sorted_perm. apply set_order_NoDup.
Qed.

Lemma union_data_sorted content entries :
StronglySorted key_le (all_data false (Some content) entries).
Proof. apply sorted_sorted. Qed.

Lemma union_data_clean content entries :
Forall clean entries ->
Forall clean (all_data false (Some content) entries).
Proof.
intros Hy. apply Forall_forall. intros x Hx.
apply union_data_elem in Hx. destruct Hx as [Hx|Hx].
- pose proof (readlines_clean content) as H.
  rewrite Forall_forall in H. auto.
- rewrite Forall_forall in Hy. auto.
Qed.

(** C5, as amended: with Replace the entries to write are the fresh ones
    as the crawl gave them, in its order and with its repetitions; with
    Union and a prior file they are the lines of the file, stripped,
    together with the fresh entries, each once, sorted on the case-folded
    key. *)
Theorem replace_keeps_crawl_order_union_sorts prior entries :
all_data true prior entries = entries
/\ forall content, prior = Some content ->
     let data := all_data false prior entries in
     StronglySorted key_le data
     /\ NoDup data
     /\ forall x, x ∈ data
                  <-> x ∈ map strip (readlines content) \/ x ∈ entries.
Proof.
split; [reflexivity|]. intros content -> data.
split; [apply union_data_sorted|].
split; [apply union_data_NoDup | apply union_data_elem].
Qed.

Lemma all_data_no_prior remove_dead entries :
all_data remove_dead None entries = entries.
Proof. destruct remove_dead; reflexivity. Qed.

End MergeFacts.

Lemma readlines_written_lines d :
Forall clean d -> d <> [] ->
readlines (written d) = map (fun e => e ++ [LF]) d.
Proof.
intros Hd Hne. unfold readlines.
rewrite universal_newlines_id.
- apply split_lines_written; [|exact Hne].
  eapply Forall_impl; [exact Hd|]. intros e [_ He].
  eapply Forall_impl; [exact He|]. intros c [Hc _]. exact Hc.
- unfold written. apply Forall_app.
  split; [|repeat constructor; discriminate].
  clear Hne. induction Hd as [|x d [_ Hx] Hd IH]; [constructor|].
  assert (Hx' : Forall (fun c => c <> CR) x)
    by (eapply Forall_impl; [exact Hx | intros c [_ Hc]; exact Hc]).
  destruct d as [|y d]; simpl; [exact Hx'|].
  apply Forall_app. split; [exact Hx'|].
  constructor; [discriminate | exact IH].
Qed.

Lemma NoDup_only {A} (a : A) l :
NoDup l -> (forall x, x ∈ l <-> x = a) -> l = [a].
Proof.
intros Hnd Hl. destruct l as [|x l].
- assert (H : a ∈ @nil A) by (apply Hl; reflexivity). inversion H.
- assert (x = a) by (apply Hl; left). subst x.
  destruct l as [|y l]; [reflexivity|].
  assert (y = a) by (apply Hl; right; left). subst y.
  apply NoDup_cons in Hnd. destruct Hnd as [Hnd _].
  exfalso. apply Hnd. left.
Qed.

(** ** A second merge of the same entries *)

Section SecondMerge.

Variable casefold : str -> str.

(** The iteration order of the sets of the first run of the program, and
    of the sets of the second. *)
Variables set_order set_order' : list str -> list str.

Hypothesis set_order_NoDup : forall l, NoDup (set_order l).
Hypothesis set_order_elem : forall l x, x ∈ set_order l <-> x ∈ l.
Hypothesis set_order'_NoDup : forall l, NoDup (set_order' l).
Hypothesis set_order'_elem : forall l x, x ∈ set_order' l <-> x ∈ l.

(** C6, as amended: when the fresh entries are clean, a second Union merge
    of them into the file the first one wrote gives a file with the same
    lines, up to the order of entries whose case-folded keys are the same;
    the file is the same, byte for byte, when no two entries of the first
    merge share a key. *)
Theorem union_merge_twice X Y :
Forall clean Y ->
let d1 := all_data casefold set_order false (Some X) Y in
let d2 := all_data casefold set_order' false (Some (written d1)) Y in
Permutation (readlines (written d2)) (readlines (written d1))
/\ ((forall a b, a ∈ d1 -> b ∈ d1 -> casefold a = casefold b -> a = b) ->
    written d2 = written d1).
Proof.
intros HY d1 d2.
pose proof (union_data_clean casefold set_order set_order_elem X Y HY)
  as Hclean1.
pose proof (union_data_NoDup casefold set_order set_order_NoDup X Y)
  as Hnd1.
pose proof (union_data_NoDup casefold set_order' set_order'_NoDup
              (written d1) Y) as Hnd2.
pose proof (union_data_elem casefold set_order set_order_elem X Y)
  as Hel1.
pose proof (union_data_elem casefold set_order' set_order'_elem
              (written d1) Y) as Hel2.
fold d1 in Hclean1, Hnd1, Hel1. fold d2 in Hnd2, Hel2.
destruct (decide (d1 = [])) as [Hnil|Hne].
- assert (Hd2 : d2 = [[]]).
  { apply NoDup_only; [exact Hnd2|]. intros x. rewrite Hel2, Hnil.
    rewrite readlines_written_nil. split.
    - intros [H|H]; [apply list_elem_of_singleton in H; exact H|].
      assert (Hx : x ∈ d1) by (apply Hel1; right; exact H).
      rewrite Hnil in Hx. inversion Hx.
    - intros ->. left. left. }
  rewrite Hd2, Hnil. split; reflexivity.
- assert (Hperm : Permutation d2 d1).
  { apply NoDup_Permutation; [exact Hnd2 | exact Hnd1 |].
    intros x. rewrite Hel2, (readlines_written _ Hclean1 Hne).
    split; [|auto]. intros [H|H]; [exact H|]. apply Hel1. right. exact H. }
  assert (Hclean2 : Forall clean d2).
  { apply Forall_forall. intros x Hx. rewrite Hperm in Hx.
    rewrite Forall_forall in Hclean1. auto. }
  assert (Hne2 : d2 <> []).
  { intros E. rewrite E in Hperm. apply Permutation_nil in Hperm.
    congruence. }
  split.
  + rewrite (readlines_written_lines _ Hclean2 Hne2),
      (readlines_written_lines _ Hclean1 Hne).
    apply Permutation_map, Hperm.
  + intros Hinj. f_equal. symmetry.
    apply (sorted_unique casefold); [apply sorted_sorted .. | |exact Hinj].
    symmetry. exact Hperm.
Qed.

End SecondMerge.

(** Reading gives the entries back line by line when none of them holds
    a line break. *)
Lemma readlines_written_plain d :
Forall (Forall (fun c => c <> LF /\ c <> CR)) d -> d <> [] ->
readlines (written d) = map (fun e => e ++ [LF]) d.
Proof.
intros Hd Hne. unfold readlines.
rewrite universal_newlines_id.
- apply split_lines_written; [|exact Hne].
  eapply Forall_impl; [exact Hd|]. intros e He.
  eapply Forall_impl; [exact He|]. intros c [Hc _]. exact Hc.
- unfold written. apply Forall_app.
  split; [|repeat constructor; discriminate].
  clear Hne. induction Hd as [|x d Hx Hd IH]; [constructor|].
  assert (Hx' : Forall (fun c => c <> CR) x)
    by (eapply Forall_impl; [exact Hx | intros c [_ Hc]; exact Hc]).
  destruct d as [|y d]; simpl; [exact Hx'|].
  apply Forall_app. split; [exact Hx'|].
  constructor; [discriminate | exact IH].
Qed.

(** ** The task of a letter and the batch *)

Section DownloadFacts.

Variable html : Type.
Variable word_lists : html -> list (list li_tag).
Variable rel_next : html -> option (option str).
Variable urlopen : str -> nat -> str -> result (Z * html).
Variable casefold : str -> str.
Variable set_order : list str -> list str.
Variable format : str -> str -> str.

Hypothesis set_order_NoDup : forall l, NoDup (set_order l).
Hypothesis set_order_elem : forall l x, x ∈ set_order l <-> x ∈ l.

Local Abbreviation iteration := (iteration html word_lists rel_next urlopen).
Local Abbreviation loop := (loop html word_lists rel_next urlopen).
Local Abbreviation after := (after html word_lists rel_next urlopen).
Local Abbreviation extract_letter_entries :=
  (extract_letter_entries html word_lists rel_next urlopen).
Local Abbreviation all_data := (all_data casefold set_order).
Local Abbreviation download_letter_entries :=
  (download_letter_entries html word_lists rel_next urlopen
     casefold set_order format).
Local Abbreviation tasks :=
  (tasks html word_lists rel_next urlopen casefold set_order format).
Local Abbreviation download_entries :=
  (download_entries html word_lists rel_next urlopen
     casefold set_order format).

(** What a task leaves in the file of its letter, when it is run alone on
    the files [fs]. *)
Local Abbreviation alone fuel letter file remove_dead fs :=
  (match download_letter_entries fuel letter file remove_dead fs with
   | Some (Ok fs', _) => fs' !! format file letter
   | _ => fs !! format file letter
   end).

Lemma download_letter_entries_eq fuel letter file remove_dead fs :
download_letter_entries fuel letter file remove_dead fs =
match extract_letter_entries fuel letter with
| None => None
| Some r =>
    match entries_of r with
    | Raise e => Some (Raise e, events (fst r))
    | Ok entries =>
        Some (Ok (<[format file letter :=
                      written (all_data remove_dead
                                 (fs !! format file letter) entries)]> fs),
              Progress letter (lit "Done") :: events (fst r))
    end
end.
Proof. reflexivity. Qed.

(** C2, as amended: an error raised by the fetch itself is not retried.  It
    ends the crawl at that fetch, with no sleep and no further fetch, and
    leaves [download_letter_entries] as the exception of the task, which
    writes no file. *)
Theorem transport_error_propagates k letter st u e extra file remove_dead fs :
after k letter (start letter) = Some st ->
url st = Some u ->
urlopen letter (fetches st) u = Raise e ->
exists st',
  extract_letter_entries (k + 1 + extra) letter = Some (st', Failed e)
  /\ fetches st' = S (fetches st)
  /\ sleeps (events st') = sleeps (events st)
  /\ download_letter_entries (k + 1 + extra) letter file remove_dead fs
     = Some (Raise e, events st').
Proof.
intros Hk Hu Ho.
pose proof (url_truthy _ _ _ _ _ _ _ _ Hk Hu) as Ht.
assert (Hit : iteration letter st =
              (Crawl (Some u) (attempt st) (S (fetches st)) (yielded st)
                 (Fetch u (Raise e) :: Progress letter u :: events st),
               Some (Failed e))).
{ unfold iteration. rewrite Hu, Ht, Ho. reflexivity. }
assert (Hrun : extract_letter_entries (k + 1 + extra) letter =
               Some (Crawl (Some u) (attempt st) (S (fetches st)) (yielded st)
                       (Fetch u (Raise e) :: Progress letter u :: events st),
                     Failed e)).
{ unfold extract_letter_entries.
  rewrite <- Nat.add_assoc, (loop_after _ _ _ _ _ _ _ _ _ Hk).
  simpl. rewrite Hit. reflexivity. }
eexists. split; [exact Hrun|]. repeat split.
rewrite download_letter_entries_eq, Hrun. reflexivity.
Qed.

(** C7: when the letter has no file yet, the task does not fail in the
    merge: it writes the fresh entries alone, whatever the policy. *)
Theorem missing_prior_file_is_no_error fuel letter file remove_dead fs r
  entries :
extract_letter_entries fuel letter = Some r ->
entries_of r = Ok entries ->
fs !! format file letter = None ->
download_letter_entries fuel letter file remove_dead fs
= Some (Ok (<[format file letter := written entries]> fs),
        Progress letter (lit "Done") :: events (fst r)).
Proof.
intros Hr He Hnone.
rewrite download_letter_entries_eq, Hr, He, Hnone.
destruct remove_dead; reflexivity.
Qed.

(** C10: when there is no entry to write, the file written is one
    ["\n"]: a file of one empty line, not a file without lines. *)
Theorem no_entry_single_newline fuel letter file remove_dead fs r entries :
extract_letter_entries fuel letter = Some r ->
entries_of r = Ok entries ->
all_data remove_dead (fs !! format file letter) entries = [] ->
download_letter_entries fuel letter file remove_dead fs
= Some (Ok (<[format file letter := [LF]]> fs),
        Progress letter (lit "Done") :: events (fst r))
/\ readlines [LF] = [[LF]].
Proof.
intros Hr He Hnil.
rewrite download_letter_entries_eq, Hr, He, Hnil. split; reflexivity.
Qed.

(** The file a task leaves depends on the files it finds only through the
    file of its own letter. *)
Lemma alone_local fuel letter file remove_dead fs1 fs2 :
fs1 !! format file letter = fs2 !! format file letter ->
alone fuel letter file remove_dead fs1 = alone fuel letter file remove_dead fs2.
Proof.
intros H. rewrite !download_letter_entries_eq.
destruct (extract_letter_entries fuel letter) as [r|]; [|exact H].
destruct (entries_of r) as [entries|e]; [|exact H].
rewrite !lookup_insert_eq, H. reflexivity.
Qed.

Lemma tasks_files fuel file remove_dead letters : forall fs,
NoDup (map (format file) letters) ->
(forall letter, letter ∈ letters -> extract_letter_entries fuel letter <> None) ->
exists fs',
  tasks fuel letters file remove_dead fs = Some fs'
  /\ (forall p, p ∉ map (format file) letters -> fs' !! p = fs !! p)
  /\ (forall letter, letter ∈ letters ->
        fs' !! format file letter = alone fuel letter file remove_dead fs).
Proof.
induction letters as [|l letters IH]; intros fs Hnd Hends.
- exists fs. split; [reflexivity|]. split; [reflexivity|].
  intros letter H. inversion H.
- simpl in Hnd. apply NoDup_cons in Hnd. destruct Hnd as [Hl Hnd].
  assert (Hends' : forall letter, letter ∈ letters ->
                     extract_letter_entries fuel letter <> None)
    by (intros letter H; apply Hends; right; exact H).
  assert (Hl_ends : extract_letter_entries fuel l <> None)
    by (apply Hends; left).
  simpl tasks. rewrite download_letter_entries_eq.
  pose proof (download_letter_entries_eq fuel l file remove_dead fs) as Hdl.
  destruct (extract_letter_entries fuel l) as [r|]; [|congruence].
  destruct (entries_of r) as [entries|e].
  + set (fs1 := <[format file l := _]> fs) in *.
    destruct (IH fs1 Hnd Hends') as (fs' & Hrun & Hout & Hin).
    exists fs'. split; [exact Hrun|]. split.
    * intros p Hp. apply not_elem_of_cons in Hp. destruct Hp as [Hp1 Hp2].
      rewrite (Hout p Hp2). unfold fs1. apply lookup_insert_ne. congruence.
    * intros letter Hletter. apply elem_of_cons in Hletter.
      destruct Hletter as [->|Hletter].
      -- rewrite (Hout _ Hl), Hdl. reflexivity.
      -- rewrite (Hin _ Hletter). apply alone_local.
         unfold fs1. apply lookup_insert_ne. intros E. apply Hl.
         rewrite E. apply list_elem_of_fmap_2. exact Hletter.
  + destruct (IH fs Hnd Hends') as (fs' & Hrun & Hout & Hin).
    exists fs'. split; [exact Hrun|]. split.
    * intros p Hp. apply not_elem_of_cons in Hp. destruct Hp as [Hp1 Hp2].
      apply Hout, Hp2.
    * intros letter Hletter. apply elem_of_cons in Hletter.
      destruct Hletter as [->|Hletter].
      -- rewrite (Hout _ Hl), Hdl. reflexivity.
      -- apply Hin, Hletter.
Qed.

(** C9: a letter whose crawl gives up at the retry ceiling still has its
    file written, from the entries yielded before; the batch goes on to
    its end, and the file of every other letter is the one its task
    writes when run alone. *)
Theorem give_up_writes_partial_entries fuel letters file remove_dead
  max_workers fs letter st :
0 < max_workers ->
NoDup (map (format file) letters) ->
letter ∈ letters ->
(forall l, l ∈ letters -> extract_letter_entries fuel l <> None) ->
extract_letter_entries fuel letter = Some (st, GaveUp) ->
exists fs',
  download_entries fuel letters file remove_dead max_workers fs
  = Some (Ok fs')
  /\ fs' !! format file letter
     = Some (written (all_data remove_dead (fs !! format file letter)
                        (concat (yielded st))))
  /\ forall l, l ∈ letters -> l <> letter ->
       fs' !! format file l = alone fuel l file remove_dead fs.
Proof.
intros Hw Hnd Hin Hends Hgave.
destruct (tasks_files fuel file remove_dead letters fs Hnd Hends)
  as (fs' & Hrun & _ & Hfiles).
exists fs'. split; [|split].
- unfold download_entries.
  destruct (Z.leb_spec max_workers 0); [lia|].
  rewrite Hrun. reflexivity.
- rewrite (Hfiles _ Hin), download_letter_entries_eq, Hgave. simpl.
  apply lookup_insert_eq.
- intros l Hl _. apply Hfiles, Hl.
Qed.

(** C1, as amended: the file of a letter whose task completes is the
    entries to write joined by ["\n"] and followed by ["\n"], which reads
    back as one entry per line when there is an entry and none holds a
    line break.  With Union and a prior file the entries to write are the
    stripped lines of that file together with the crawled entries, each
    once, sorted on the case-folded key; with Replace, or without a prior
    file, they are the crawled entries, in the order and with the
    repetitions of the crawl. *)
Theorem output_file_format fuel letter file remove_dead fs fs' log :
download_letter_entries fuel letter file remove_dead fs = Some (Ok fs', log) ->
exists r entries data,
  extract_letter_entries fuel letter = Some r
  /\ entries_of r = Ok entries
  /\ fs' !! format file letter = Some (join [LF] data ++ [LF])
  /\ (data <> [] -> Forall (Forall (fun c => c <> LF /\ c <> CR)) data ->
      readlines (join [LF] data ++ [LF]) = map (fun e => e ++ [LF]) data)
  /\ (if remove_dead then data = entries
      else match fs !! format file letter with
           | Some content =>
               StronglySorted (key_le casefold) data
               /\ NoDup data
               /\ forall x, x ∈ data
                            <-> x ∈ map strip (readlines content)
                                \/ x ∈ entries
           | None => data = entries
           end).
Proof.
rewrite download_letter_entries_eq.
destruct (extract_letter_entries fuel letter) as [r|]; [|discriminate].
destruct (entries_of r) as [entries|e] eqn:He; [|discriminate].
intros H. inversion H; subst; clear H.
exists r, entries,
  (all_data remove_dead (fs !! format file letter) entries).
split; [reflexivity|]. split; [exact He|].
split; [apply lookup_insert_eq|].
split; [intros Hne Hlf; apply readlines_written_plain; assumption|].
destruct remove_dead; [reflexivity|].
destruct (fs !! format file letter) as [content|]; [|reflexivity].
split; [apply sorted_sorted|].
split; [apply union_data_NoDup, set_order_NoDup|].
apply union_data_elem, set_order_elem.
Qed.

End DownloadFacts.

(** ** The instances of the examples *)

Lemma hash_order_NoDup hash l : NoDup (hash_order hash l).
Proof.
unfold hash_order. rewrite sorted_perm. apply NoDup_remove_dups.
Qed.

Lemma hash_order_elem hash l x : x ∈ hash_order hash l <-> x ∈ l.
Proof.
unfold hash_order. rewrite sorted_perm. apply elem_of_remove_dups.
Qed.

(** The examples of the specification: a prior file of apple and zeta,
    fresh entries apple and banana; and the order of banana, Apple and
    cherry. *)
Example merge_apple_banana_zeta :
let prior := Some (written [lit "apple"; lit "zeta"]) in
let fresh := [lit "apple"; lit "banana"] in
all_data ascii_casefold (hash_order seed1) true prior fresh
= [lit "apple"; lit "banana"]
/\ all_data ascii_casefold (hash_order seed1) false prior fresh
   = [lit "apple"; lit "banana"; lit "zeta"]
/\ sorted ascii_casefold [lit "banana"; lit "Apple"; lit "cherry"]
   = [lit "Apple"; lit "banana"; lit "cherry"].
Proof. repeat split. Qed.

(** Entries whose case-folded keys are the same come in the order in which
    the set is iterated, which is not the same from one run to the next. *)
Example tie_order_follows_hash :
let fresh := [lit "B"; lit "b"] in
let d1 := all_data ascii_casefold (hash_order seed1) false (Some []) fresh in
let d2 :=
  all_data ascii_casefold (hash_order seed2) false (Some (written d1)) fresh in
d1 = [lit "B"; lit "b"] /\ d2 = [lit "b"; lit "B"].
Proof. split; reflexivity. Qed.

(** ** The theorems at work *)

Lemma retry_ceiling_witness :
(forall i, (i < 11)%nat ->
   exists code content,
     overloaded (lit "A") (1 + i) (SITE ++ page2) = Ok (code, content)
     /\ code <> 200)
/\ exists st',
     extract_letter_entries page page_lists page_next overloaded 12 (lit "A")
     = Some (st', GaveUp)
     /\ fetches st' = 12%nat
     /\ yielded st' = [[lit "apple"]]
     /\ urls_fetched (events st')
        = repeat (SITE ++ page2) 11 ++ [API (lit "A")].
Proof.
assert (H : forall i, (i < 11)%nat ->
          exists code content,
            overloaded (lit "A") (1 + i) (SITE ++ page2) = Ok (code, content)
            /\ code <> 200).
{ intros i _. exists 503, (Page [] None).
  split; [destruct i; reflexivity | discriminate]. }
split; [exact H|].
exact (retry_ceiling page page_lists page_next overloaded 1 (lit "A")
         (on_second_page [lit "apple"]) (SITE ++ page2) 0
         eq_refl eq_refl eq_refl H).
Defined.

Lemma backoff_linear_and_reset_witness :
let st := on_second_page [lit "apple"] in
let u := SITE ++ page2 in
exists st',
  iteration page page_lists page_next overloaded (lit "A") st = (st', None)
  /\ events st'
     = Sleep (DELAY * 1) :: Print (lit "A") 503
       :: Fetch u (Ok (503, Page [] None)) :: Progress (lit "A") u
       :: events st
  /\ url st' = Some u
  /\ yielded st' = yielded st
  /\ urls_fetched
       (events
          (fst (iteration page page_lists page_next overloaded (lit "A") st')))
     = u :: u :: urls_fetched (events st).
Proof.
intros st u.
destruct (backoff_linear_and_reset page page_lists page_next overloaded
            1 (lit "A") st u 503 (Page [] None) eq_refl eq_refl eq_refl)
  as [H _].
apply H; [discriminate | unfold MAX_ATTEMPTS; simpl; lia].
Defined.

Lemma pagination_ends_at_last_page_witness :
let st := on_second_page [lit "apple"; lit "banana"] in
get_next page page_next (listing [lit "apple"; lit "banana"] (Some page2))
= Ok (url st)
/\ exists st',
     fetches st' = 2%nat
     /\ length (pages_fetched (events st')) = 2%nat
     /\ extract_letter_entries page page_lists page_next steady 3 (lit "A")
        = Some (st', Exhausted)
     /\ yielded st' = [[lit "apple"; lit "banana"]; [lit "cherry"]].
Proof.
intros st.
destruct (pagination_ends_at_last_page page page_lists page_next steady
            1 (lit "A") st eq_refl) as [H1 H2].
split; [exact H1|].
exact (H2 (SITE ++ page2) (listing [lit "cherry"] None) 0%nat
         eq_refl eq_refl eq_refl).
Defined.

Lemma transport_error_propagates_witness :
let e := URLError (lit "timed out") in
exists st',
  extract_letter_entries page page_lists page_next unreachable 1 (lit "A")
  = Some (st', Failed e)
  /\ fetches st' = 1%nat
  /\ sleeps (events st') = []
  /\ download_letter_entries page page_lists page_next unreachable
       ascii_casefold (hash_order seed1) format0
       1 (lit "A") (lit "data/{0}.data") false ∅
     = Some (Raise e, events st').
Proof.
exact (transport_error_propagates page page_lists page_next unreachable
         ascii_casefold (hash_order seed1) format0
         0 (lit "A") (start (lit "A")) (API (lit "A"))
         (URLError (lit "timed out")) 0 (lit "data/{0}.data") false ∅
         eq_refl eq_refl eq_refl).
Defined.

Lemma missing_prior_file_is_no_error_witness :
exists log,
  download_letter_entries page page_lists page_next steady
    ascii_casefold (hash_order seed1) format0
    3 (lit "A") (lit "data/{0}.data") false ∅
  = Some (Ok (<[lit "data/A.data" :=
                  written [lit "apple"; lit "banana"; lit "cherry"]]> ∅),
          log).
Proof.
eexists.
exact (missing_prior_file_is_no_error page page_lists page_next steady
         ascii_casefold (hash_order seed1) format0
         3 (lit "A") (lit "data/{0}.data") false ∅
         (final_state
            (extract_letter_entries page page_lists page_next steady
               3 (lit "A")),
          Exhausted)
         [lit "apple"; lit "banana"; lit "cherry"]
         eq_refl eq_refl eq_refl).
Defined.

Lemma no_entry_single_newline_witness :
fst <$> download_letter_entries page page_lists page_next wordless
          ascii_casefold (hash_order seed1) format0
          2 (lit "A") (lit "data/{0}.data") true ∅
= Some (Ok (<[lit "data/A.data" := [LF]]> ∅))
/\ readlines [LF] = [[LF]].
Proof.
destruct (no_entry_single_newline page page_lists page_next wordless
            ascii_casefold (hash_order seed1) format0
            2 (lit "A") (lit "data/{0}.data") true ∅
            (final_state
               (extract_letter_entries page page_lists page_next wordless
                  2 (lit "A")),
             Exhausted)
            [] eq_refl eq_refl eq_refl) as [H1 H2].
split; [rewrite H1; reflexivity | exact H2].
Defined.

Lemma give_up_writes_partial_entries_witness :
exists fs',
  download_entries page page_lists page_next uneven
    ascii_casefold (hash_order seed1) format0
    12 [lit "A"; lit "B"] (lit "data/{0}.data") false 20 ∅
  = Some (Ok fs')
  /\ fs' !! lit "data/A.data" = Some (written [lit "apple"])
  /\ fs' !! lit "data/B.data"
     = Some (written [lit "apple"; lit "banana"; lit "cherry"]).
Proof.
assert (Hnd : NoDup (map (format0 (lit "data/{0}.data")) [lit "A"; lit "B"])).
{ apply NoDup_cons. split; [|apply NoDup_singleton].
  intros H. apply list_elem_of_singleton in H. discriminate. }
assert (Hends : forall l, l ∈ [lit "A"; lit "B"] ->
          extract_letter_entries page page_lists page_next uneven 12 l
          <> None).
{ intros l Hl. apply elem_of_cons in Hl. destruct Hl as [->|Hl].
  - vm_compute. discriminate.
  - apply list_elem_of_singleton in Hl. subst l. vm_compute. discriminate. }
assert (Hgave : extract_letter_entries page page_lists page_next uneven
                  12 (lit "A")
                = Some (final_state
                          (extract_letter_entries page page_lists page_next
                             uneven 12 (lit "A")), GaveUp)).
{ vm_compute. reflexivity. }
destruct (give_up_writes_partial_entries page page_lists page_next uneven
            ascii_casefold (hash_order seed1) format0
            12 [lit "A"; lit "B"] (lit "data/{0}.data") false 20 ∅
            (lit "A") _
            eq_refl Hnd (list_elem_of_here _ _) Hends Hgave)
  as (fs' & H1 & H2 & H3).
exists fs'. split; [exact H1|]. 
split.
{ change (lit "data/A.data") with (format0 (lit "data/{0}.data") (lit "A")).
  rewrite H2. vm_compute. reflexivity. }
change (lit "data/B.data") with (format0 (lit "data/{0}.data") (lit "B")).
rewrite (H3 (lit "B")); [| right; left | discriminate].
vm_compute. reflexivity.
Defined.

Lemma output_file_format_witness :
let prior := [lit "Zeta"; lit "apple"] in
let fs : gmap str str := {[ lit "data/A.data" := written prior ]} in
let run :=
  download_letter_entries page page_lists page_next steady
    ascii_casefold (hash_order seed1) format0
    3 (lit "A") (lit "data/{0}.data") false fs in
exists data,
  files_of (outcome_of run) !! lit "data/A.data"
  = Some (join [LF] data ++ [LF])
  /\ StronglySorted (key_le ascii_casefold) data
  /\ NoDup data
  /\ forall x, x ∈ data
               <-> x ∈ prior \/ x ∈ [lit "apple"; lit "banana"; lit "cherry"].
Proof.
intros prior fs run.
assert (Hrun : run = Some (Ok (files_of (outcome_of run)), log_of run))
  by (vm_compute; reflexivity).
destruct (output_file_format page page_lists page_next steady
            ascii_casefold (hash_order seed1) format0
            (hash_order_NoDup seed1) (hash_order_elem seed1)
            3 (lit "A") (lit "data/{0}.data") false fs
            (files_of (outcome_of run)) (log_of run) Hrun)
  as (r & entries & data & Hr & He & Hf & _ & Hs).
assert (Hentries : entries = [lit "apple"; lit "banana"; lit "cherry"]).
{ vm_compute in Hr. inversion Hr; subst r. vm_compute in He.
  inversion He. reflexivity. }
subst entries.
assert (Hprior : fs !! format0 (lit "data/{0}.data") (lit "A")
                 = Some (written prior))
  by (vm_compute; reflexivity).
rewrite Hprior in Hs.
assert (Hlines : map strip (readlines (written prior)) = prior)
  by (vm_compute; reflexivity).
rewrite Hlines in Hs.
exists data. split; [exact Hf | exact Hs].
Defined.

Lemma replace_keeps_crawl_order_union_sorts_witness :
let content := written [lit "apple"; lit "zeta"] in
let fresh := [lit "banana"; lit "apple"] in
all_data ascii_casefold (hash_order seed1) true (Some content) fresh = fresh
/\ StronglySorted (key_le ascii_casefold)
     (all_data ascii_casefold (hash_order seed1) false (Some content) fresh)
/\ NoDup (all_data ascii_casefold (hash_order seed1) false (Some content) fresh).
Proof.
intros content fresh.
destruct (replace_keeps_crawl_order_union_sorts ascii_casefold
            (hash_order seed1) (hash_order_NoDup seed1)
            (hash_order_elem seed1) (Some content) fresh) as [H1 H2].
split; [exact H1|].
destruct (H2 content eq_refl) as (H3 & H4 & _).
split; [exact H3 | exact H4].
Defined.

Lemma union_merge_twice_witness :
let X := written [lit "Zeta"] in
let Y := [lit "apple"; lit "banana"] in
let d1 := all_data ascii_casefold (hash_order seed1) false (Some X) Y in
let d2 :=
  all_data ascii_casefold (hash_order seed2) false (Some (written d1)) Y in
Forall clean Y
/\ Permutation (readlines (written d2)) (readlines (written d1))
/\ written d2 = written d1.
Proof.
intros X Y d1 d2.
assert (HY : Forall clean Y).
{ repeat constructor; discriminate. }
destruct (union_merge_twice ascii_casefold (hash_order seed1)
            (hash_order seed2) (hash_order_NoDup seed1)
            (hash_order_elem seed1) (hash_order_NoDup seed2)
            (hash_order_elem seed2) X Y HY) as [H1 H2].
split; [exact HY|]. split; [exact H1|].
apply H2. intros a b Ha Hb.
repeat (apply elem_of_cons in Ha; destruct Ha as [->|Ha]);
  try (inversion Ha; fail);
  repeat (apply elem_of_cons in Hb; destruct Hb as [->|Hb]);
  try (inversion Hb; fail); try reflexivity; discriminate.
Defined.

(** ** Where the code departs from the specification *)

(** With Replace the file holds the crawled entries as they came: here not
    in order, and banana twice. *)
Lemma replace_output_unsorted_with_duplicates :
let data := [lit "banana"; lit "apple"; lit "banana"] in
fst <$> download_letter_entries page page_lists page_next unsorted
          ascii_casefold (hash_order seed1) format0
          2 (lit "B") (lit "data/{0}.data") true ∅
= Some (Ok (<[lit "data/B.data" := written data]> ∅))
/\ ~ StronglySorted (key_le ascii_casefold) data
/\ ~ NoDup data.
Proof.
intros data. split; [vm_compute; reflexivity|]. split.
- intros H. inversion H as [|? ? _ Hall]; subst.
  inversion Hall as [|? ? Hle _]; subst. vm_compute in Hle. discriminate.
- intros H. apply NoDup_cons in H. destruct H as [H _].
  apply H. right. left.
Qed.

(** The first fetch raises and the second would be served: the crawl ends
    at the first one with the exception, and so does the task. *)
Lemma transport_error_not_retried :
let e := URLError (lit "timed out") in
extract_letter_entries page page_lists page_next unreachable 12 (lit "A")
= Some (Crawl (Some (API (lit "A"))) 0 1 []
          [Fetch (API (lit "A")) (Raise e);
           Progress (lit "A") (API (lit "A"))],
        Failed e)
/\ fst <$> download_letter_entries page page_lists page_next unreachable
             ascii_casefold (hash_order seed1) format0
             12 (lit "A") (lit "data/{0}.data") false ∅
   = Some (Raise e).
Proof. split; vm_compute; reflexivity. Qed.

(** With Replace the entries to write are the fresh ones in the order of
    the crawl, here banana before apple. *)
Lemma replace_is_not_sorted :
let prior := Some (written [lit "apple"; lit "zeta"]) in
let fresh := [lit "banana"; lit "apple"] in
all_data ascii_casefold (hash_order seed1) true prior fresh
= [lit "banana"; lit "apple"]
/\ ~ StronglySorted (key_le ascii_casefold)
       (all_data ascii_casefold (hash_order seed1) true prior fresh).
Proof.
split; [reflexivity|]. intros H. vm_compute in H.
inversion H as [|? ? _ Hall]; subst.
inversion Hall as [|? ? Hle _]; subst. vm_compute in Hle. discriminate.
Qed.

(** An entry that begins with a space is read back without it: the second
    merge adds the stripped entry to the file. *)
Lemma union_merge_not_idempotent :
let merge X Y :=
  written (all_data ascii_casefold (hash_order seed1) false (Some X) Y) in
let Y := [lit " a"] in
merge [] Y = lit " a" ++ [LF]
/\ merge (merge [] Y) Y = lit " a" ++ [LF] ++ lit "a" ++ [LF]
/\ merge (merge [] Y) Y <> merge [] Y.
Proof.
intros merge Y. split; [reflexivity|]. split; [reflexivity|].
vm_compute. discriminate.
Qed.

(** * Further properties *)

(** ** The words of a page *)

Section PageFacts.

Variable html : Type.
Variable word_lists : html -> list (list li_tag).

Local Abbreviation extract_page_entries :=
  (extract_page_entries html word_lists).

Lemma anchors_Ok ul entries :
anchors ul = Ok entries ->
(None ∉ ul)
/\ entries = filter (fun s : str => s <> []) (omap (mbind id) ul).
Proof.
revert entries. induction ul as [|li ul IH]; intros entries H; simpl in H.
- inversion H. split; [apply not_elem_of_nil | reflexivity].
- destruct li as [a|]; [|discriminate].
  destruct (anchors ul) as [rest|e]; [|discriminate].
  destruct (IH rest eq_refl) as [Hnone Hrest]. simpl in H.
  split.
  + apply not_elem_of_cons. split; [discriminate | exact Hnone].
  + destruct a as [[|c s]|]; inversion H; subst; reflexivity.
Qed.

(** X1: the entries of a page are the texts of the anchors of the items of
    its first word list, in the order of the page, without the anchors
    that have no single text and without the empty texts; no entry is
    empty. *)
Theorem extract_page_entries_words page entries :
extract_page_entries page = Ok entries ->
exists ul rest,
  word_lists page = ul :: rest
  /\ (None ∉ ul)
  /\ entries = filter (fun s : str => s <> []) (omap (mbind id) ul)
  /\ Forall (fun e => e <> []) entries.
Proof.
unfold extract_page_entries.
destruct (word_lists page) as [|ul rest]; [discriminate|].
intros H. apply anchors_Ok in H. destruct H as [Hnone ->].
exists ul, rest. split; [reflexivity|]. split; [exact Hnone|].
split; [reflexivity|].
apply Forall_forall. intros e He. apply list_elem_of_filter in He.
exact (proj1 He).
Qed.

End PageFacts.

(** ** More on the crawl of a letter *)

Section CrawlFacts.

Variable html : Type.
Variable word_lists : html -> list (list li_tag).
Variable rel_next : html -> option (option str).
Variable urlopen : str -> nat -> str -> result (Z * html).

Local Abbreviation iteration := (iteration html word_lists rel_next urlopen).
Local Abbreviation loop := (loop html word_lists rel_next urlopen).
Local Abbreviation after := (after html word_lists rel_next urlopen).
Local Abbreviation extract_letter_entries :=
  (extract_letter_entries html word_lists rel_next urlopen).
Local Abbreviation extract_page_entries := (extract_page_entries html word_lists).
Local Abbreviation get_next := (get_next html rel_next).

(** The cases of one iteration, in the order of the source. *)
Ltac iteration_split st :=
  unfold iteration;
  destruct (url st) as [?u|] eqn:?Hurl; simpl;
  [ destruct (truthy _) eqn:?Htruthy; simpl;
    [ destruct (urlopen _ _ _) as [[?code ?content]|?e] eqn:?Hopen; simpl;
      [ destruct (_ =? 200) eqn:?Hcode; simpl;
        [ destruct (extract_page_entries _)
            as [?entries|?e] eqn:?Hentries; simpl;
          [ destruct (get_next _) as [?next|?e] eqn:?Hnext; simpl | ]
        | destruct (_ >? MAX_ATTEMPTS) eqn:?Hmax; simpl ]
      | ]
    | ]
  | ].

(** A run that ends has gone through some iterations that went on, and
    one that ended it. *)
Lemma loop_ends fuel letter st0 st' e :
loop fuel letter st0 = Some (st', e) ->
exists k st,
  (k < fuel)%nat
  /\ after k letter st0 = Some st
  /\ iteration letter st = (st', Some e).
Proof.
revert st0. induction fuel as [|fuel IH]; intros st0 H; simpl in H.
- discriminate.
- destruct (iteration letter st0) as [st1 [e1|]] eqn:Hit.
  + inversion H; subst. exists 0%nat, st0.
    split; [lia|]. split; [reflexivity | exact Hit].
  + destruct (IH _ H) as (k & st & Hk & Hafter & Hlast).
    exists (S k), st. split; [lia|]. split; [|exact Hlast].
    simpl. rewrite Hit. exact Hafter.
Qed.

(** A run that the fuel does not end is still going after that many
    iterations. *)
Lemma loop_None fuel letter st0 :
loop fuel letter st0 = None -> exists st, after fuel letter st0 = Some st.
Proof.
revert st0. induction fuel as [|fuel IH]; intros st0 H; simpl in *.
- exists st0. reflexivity.
- destruct (iteration letter st0) as [st1 [e1|]]; [discriminate|].
  apply IH, H.
Qed.

(** An invariant of every iteration holds where the run ends. *)
Lemma ended_invariant (P : crawl html -> Prop) letter :
P (start letter) ->
(forall st st' o, P st -> iteration letter st = (st', o) -> P st') ->
forall fuel st' e,
  extract_letter_entries fuel letter = Some (st', e) -> P st'.
Proof.
intros H0 Hstep fuel st' e Hrun.
destruct (loop_ends _ _ _ _ _ Hrun) as (k & st & _ & Hafter & Hlast).
apply (Hstep st st' (Some e)); [|exact Hlast].
revert Hafter. apply after_invariant; [exact H0|].
intros s s' Hs Hit. apply (Hstep s s' None Hs Hit).
Qed.

Lemma after_fetches k letter st0 st :
after k letter st0 = Some st -> fetches st = (fetches st0 + k)%nat.
Proof.
revert st0. induction k as [|k IH]; intros st0 H; simpl in H.
- inversion H. lia.
- destruct (iteration letter st0) as [st1 [e1|]] eqn:Hit; [discriminate|].
  rewrite (IH _ H). revert Hit. iteration_split st0;
    intros Hit; inversion Hit; subst; simpl; lia.
Qed.

(** An iteration keeps on the site the URLs fetched, the messages of
    progress and the URL held. *)
Lemma on_site_step letter st st' o :
let on_site := fun u : str => exists path, u = SITE ++ path in
Forall on_site (urls_fetched (events st))
/\ Forall on_site (progress_messages (events st))
/\ (forall u, url st = Some u -> on_site u) ->
iteration letter st = (st', o) ->
Forall on_site (urls_fetched (events st'))
/\ Forall on_site (progress_messages (events st'))
/\ (forall u, url st' = Some u -> on_site u).
Proof.
intros on_site (Hlog & Hmsg & Hu).
assert (Hnext : forall content next u,
          get_next content = Ok next -> next = Some u -> on_site u).
{ intros content next u H ->. unfold get_next in H.
  destruct (rel_next content) as [[href|]|]; inversion H.
  exists href. reflexivity. }
iteration_split st; intros Hit; inversion Hit; subst; clear Hit; simpl;
  (split; [try constructor; auto | split; [try constructor; auto | eauto]]).
all: intros u0 Hu0; rewrite Hurl in Hu0;
  first [discriminate | apply Hu; exact Hu0].
Qed.

(** An iteration keeps the URLs fetched and the URL held among the index
    of the letter and the next links of the pages fetched. *)
Lemma from_links_step letter st st' o :
let from_link := fun (log : list (event html)) (u : str) =>
  u = API letter
  \/ exists content href,
       content ∈ pages_fetched log
       /\ rel_next content = Some (Some href)
       /\ u = SITE ++ href in
Forall (from_link (events st)) (urls_fetched (events st))
/\ (forall u, url st = Some u -> from_link (events st) u) ->
iteration letter st = (st', o) ->
Forall (from_link (events st')) (urls_fetched (events st'))
/\ (forall u, url st' = Some u -> from_link (events st') u).
Proof.
intros from_link [Hlog Hu].
assert (Hmono : forall log log' u,
          (forall c, c ∈ pages_fetched log -> c ∈ pages_fetched log') ->
          from_link log u -> from_link log' u).
{ intros log log' u Hsub [->|(c & h & Hc & Hr & ->)]; [left; reflexivity|].
  right. exists c, h. auto. }
assert (Hkeep : forall log',
          (forall c, c ∈ pages_fetched (events st) ->
                     c ∈ pages_fetched log') ->
          forall u, url st = Some u ->
            Forall (from_link log') (u :: urls_fetched (events st))
            /\ from_link log' u).
{ intros log' Hsub u Hurl.
  assert (Hgood : from_link log' u) by (eapply Hmono; eauto).
  split; [|exact Hgood]. constructor; [exact Hgood|].
  eapply Forall_impl; [exact Hlog|]. intros v Hv. eapply Hmono; eauto. }
assert (Hnext : forall content next u log',
          get_next content = Ok next -> next = Some u ->
          content ∈ pages_fetched log' -> from_link log' u).
{ intros content next u log' H -> Hin. unfold get_next in H.
  destruct (rel_next content) as [[href|]|] eqn:E; inversion H.
  right. exists content, href. auto. }
revert Hkeep.
iteration_split st; intros Hkeep Hit; inversion Hit; subst; clear Hit.
- match goal with
  | |- Forall (from_link ?l) _ /\ _ =>
      destruct (Hkeep l) with (u := u) as [Hall Hheld];
        [intros c Hc; simpl; rewrite Hcode; right; exact Hc | reflexivity |]
  end.
  split; [exact Hall|]. intros u' Hu'. simpl in Hu'.
  eapply Hnext; [exact Hnext0 | exact Hu' |]. simpl. rewrite Hcode. left.
- match goal with
  | |- Forall (from_link ?l) _ /\ _ =>
      destruct (Hkeep l) with (u := u) as [Hall Hheld];
        [intros c Hc; simpl; rewrite Hcode; right; exact Hc | reflexivity |]
  end.
  split; [exact Hall|]. intros u' Hu'. inversion Hu'; subst. exact Hheld.
- match goal with
  | |- Forall (from_link ?l) _ /\ _ =>
      destruct (Hkeep l) with (u := u) as [Hall Hheld];
        [intros c Hc; simpl; rewrite Hcode; right; exact Hc | reflexivity |]
  end.
  split; [exact Hall|]. intros u' Hu'. inversion Hu'; subst. exact Hheld.
- match goal with
  | |- Forall (from_link ?l) _ /\ _ =>
      destruct (Hkeep l) with (u := u) as [Hall Hheld];
        [intros c Hc; simpl; rewrite Hcode; exact Hc | reflexivity |]
  end.
  split; [exact Hall|]. intros u' Hu'. inversion Hu'; subst. exact Hheld.
- match goal with
  | |- Forall (from_link ?l) _ /\ _ =>
      destruct (Hkeep l) with (u := u) as [Hall Hheld];
        [intros c Hc; simpl; rewrite Hcode; exact Hc | reflexivity |]
  end.
  split; [exact Hall|]. intros u' Hu'. inversion Hu'; subst. exact Hheld.
- match goal with
  | |- Forall (from_link ?l) _ /\ _ =>
      destruct (Hkeep l) with (u := u) as [Hall Hheld];
        [intros c Hc; exact Hc | reflexivity |]
  end.
  split; [exact Hall|]. intros u' Hu'. inversion Hu'; subst. exact Hheld.
- split; [exact Hlog|]. intros u' Hu'. rewrite Hurl in Hu'.
  apply Hu. exact Hu'.
- split; [exact Hlog|]. intros u' Hu'. rewrite Hurl in Hu'. discriminate.
Qed.

(** X3: every URL the crawl fetches is on the site, the site's address
    followed by a path: it is the index of the letter, or the address of
    the site followed by the [href] of the next link of a page fetched
    with status 200. *)
Theorem fetches_stay_on_site fuel letter st e :
extract_letter_entries fuel letter = Some (st, e) ->
Forall (fun u =>
          (exists path, u = SITE ++ path)
          /\ (u = API letter
              \/ exists content href,
                   content ∈ pages_fetched (events st)
                   /\ rel_next content = Some (Some href)
                   /\ u = SITE ++ href))
  (urls_fetched (events st)).
Proof.
intros Hrun.
set (on_site := fun u : str => exists path, u = SITE ++ path).
set (from_link := fun (log : list (event html)) (u : str) =>
       u = API letter
       \/ exists content href,
            content ∈ pages_fetched log
            /\ rel_next content = Some (Some href)
            /\ u = SITE ++ href).
assert (Hsite : Forall on_site (urls_fetched (events st))
                /\ Forall on_site (progress_messages (events st))
                /\ forall u, url st = Some u -> on_site u).
{ revert Hrun.
  apply (ended_invariant
           (fun st => Forall on_site (urls_fetched (events st))
                      /\ Forall on_site (progress_messages (events st))
                      /\ forall u, url st = Some u -> on_site u)).
  - split; [constructor|]. split; [constructor|].
    intros u Hu. inversion Hu.
    exists (lit "/browse.php?character=" ++ letter). reflexivity.
  - intros s s' o. apply on_site_step. }
assert (Hlink : Forall (from_link (events st)) (urls_fetched (events st))
                /\ forall u, url st = Some u -> from_link (events st) u).
{ revert Hrun.
  apply (ended_invariant
           (fun st => Forall (from_link (events st))
                        (urls_fetched (events st))
                      /\ forall u, url st = Some u ->
                           from_link (events st) u)).
  - split; [constructor|]. intros u Hu. inversion Hu. left. reflexivity.
  - intros s s' o. apply from_links_step. }
destruct Hsite as [Hsite _]. destruct Hlink as [Hlink _].
rewrite Forall_forall in Hsite, Hlink. apply Forall_forall.
intros u Hu. split; [apply Hsite | apply Hlink]; exact Hu.
Qed.

(** X4: every fetch is announced: the count of fetches is the number of
    URLs fetched, the messages given to [progress_callback] are these URLs
    in the same order, and the first of them is the index of the
    letter. *)
Theorem progress_announces_fetches fuel letter st e :
extract_letter_entries fuel letter = Some (st, e) ->
fetches st = length (urls_fetched (events st))
/\ progress_messages (events st) = urls_fetched (events st)
/\ last (urls_fetched (events st)) = Some (API letter).
Proof.
intros Hrun.
set (P := fun st : crawl html =>
            fetches st = length (urls_fetched (events st))
            /\ progress_messages (events st) = urls_fetched (events st)
            /\ match urls_fetched (events st) with
               | [] => url st = Some (API letter)
               | _ :: _ => last (urls_fetched (events st)) = Some (API letter)
               end).
assert (Hstep : forall st st' o,
          P st -> iteration letter st = (st', o) ->
          P st' /\ (o <> None -> urls_fetched (events st') <> [])).
{ clear. intros st st' o (Hn & Hmsg & Hfirst).
  assert (Hlast : forall u,
            url st = Some u ->
            last (u :: urls_fetched (events st)) = Some (API letter)).
  { intros u Hu. destruct (urls_fetched (events st)) as [|v l] eqn:E.
    - rewrite Hu in Hfirst. inversion Hfirst. reflexivity.
    - rewrite last_cons, Hfirst. reflexivity. }
  assert (Hempty : url st = None -> urls_fetched (events st) <> []).
  { intros Hu E. rewrite E, Hu in Hfirst. discriminate. }
  assert (Hfalsy : forall u, url st = Some u -> truthy u = false ->
                     urls_fetched (events st) <> []).
  { intros u Hu Ht E. rewrite E, Hu in Hfirst. inversion Hfirst; subst.
    discriminate. }
  unfold P. iteration_split st; intros Hit; inversion Hit; subst; clear Hit;
    simpl;
    try (split; [split; [congruence|]; split; [congruence|];
                 apply Hlast; reflexivity
                | intros H; first [discriminate | congruence]]).
  - split; [|intros _; eapply Hfalsy; eauto].
    split; [exact Hn|]. split; [exact Hmsg|]. rewrite Hurl. exact Hfirst.
  - split; [|intros _; apply Hempty; reflexivity].
    split; [exact Hn|]. split; [exact Hmsg|]. rewrite Hurl. exact Hfirst. }
destruct (loop_ends _ _ _ _ _ Hrun) as (k & st0 & _ & Hafter & Hlast).
assert (H0 : P st0).
{ revert Hafter. apply after_invariant.
  - repeat split.
  - intros s s' Hs Hit. exact (proj1 (Hstep _ _ _ Hs Hit)). }
destruct (Hstep _ _ _ H0 Hlast) as [(Hn & Hmsg & Hfirst) Hne].
split; [exact Hn|]. split; [exact Hmsg|].
destruct (urls_fetched (events st)) as [|u l]; [|exact Hfirst].
exfalso. apply Hne; [discriminate | reflexivity].
Qed.

(** The pages yielded are the entries of the pages fetched, in order. *)
Lemma yielded_running k letter st :
after k letter (start letter) = Some st ->
Forall2 (fun content entries => extract_page_entries content = Ok entries)
  (rev (pages_fetched (events st))) (yielded st).
Proof.
apply (after_invariant _ _ _ _
         (fun st => Forall2
                      (fun content entries =>
                         extract_page_entries content = Ok entries)
                      (rev (pages_fetched (events st))) (yielded st))).
- constructor.
- clear st. intros st st' Hst. iteration_split st;
    intros Hit; inversion Hit; subst; clear Hit; simpl; rewrite ?Hcode;
    simpl; auto.
  apply Forall2_app; [exact Hst|]. repeat constructor. exact Hentries.
Qed.

(** An iteration that ends the run without exception fetches no page and
    yields nothing. *)
Lemma quiet_last_step letter st st' e :
iteration letter st = (st', Some e) ->
(forall x, e <> Failed x) ->
yielded st' = yielded st
/\ pages_fetched (events st') = pages_fetched (events st).
Proof.
intros Hlast Hok. revert Hlast. iteration_split st;
  intros Hit; inversion Hit; subst; clear Hit; simpl; rewrite ?Hcode;
  try (split; reflexivity); exfalso; eapply Hok; reflexivity.
Qed.

(** X5: when the crawl ends without exception, at the last page or at the
    retry ceiling, what it has yielded is the entries of each page
    answered with status 200, one list per page, in the order of the
    fetches. *)
Theorem yielded_are_pages_fetched fuel letter st e :
extract_letter_entries fuel letter = Some (st, e) ->
(forall x, e <> Failed x) ->
Forall2 (fun content entries => extract_page_entries content = Ok entries)
  (rev (pages_fetched (events st))) (yielded st).
Proof.
intros Hrun Hok.
destruct (loop_ends _ _ _ _ _ Hrun) as (k & st0 & _ & Hafter & Hlast).
destruct (quiet_last_step _ _ _ _ Hlast Hok) as [-> ->].
exact (yielded_running _ _ _ Hafter).
Qed.

(** While the loop goes on, the sleeps are within the bounds of the
    backoff and their sum within 550 seconds a page, plus what the
    current page has cost. *)
Lemma sleeps_running k letter st :
after k letter (start letter) = Some st ->
0 <= attempt st <= MAX_ATTEMPTS
/\ Forall (fun s => DELAY <= s <= DELAY * MAX_ATTEMPTS) (sleeps (events st))
/\ foldr Z.add 0 (sleeps (events st))
   <= 550 * Z.of_nat (length (pages_fetched (events st)))
      + 5 * attempt st * (attempt st + 1).
Proof.
apply (after_invariant _ _ _ _
         (fun st =>
            0 <= attempt st <= MAX_ATTEMPTS
            /\ Forall (fun s => DELAY <= s <= DELAY * MAX_ATTEMPTS)
                 (sleeps (events st))
            /\ foldr Z.add 0 (sleeps (events st))
               <= 550 * Z.of_nat (length (pages_fetched (events st)))
                  + 5 * attempt st * (attempt st + 1))).
- simpl. unfold MAX_ATTEMPTS. repeat split; try constructor; lia.
- clear st. intros st st' (Ha & Hs & Hsum). iteration_split st;
    intros Hit; inversion Hit; subst; clear Hit; simpl; rewrite ?Hcode;
    unfold MAX_ATTEMPTS, DELAY in *; simpl.
  + split; [lia|]. split; [exact Hs|].
    rewrite Nat2Z.inj_succ. nia.
  + split; [lia|]. split; [constructor; [lia | exact Hs]|]. nia.
Qed.

(** X6: every sleep of a crawl lasts between [DELAY] and
    [DELAY * MAX_ATTEMPTS] seconds, 10 to 100, and the crawl sleeps at
    most 550 seconds for each page answered with status 200, and 550
    more. *)
Theorem sleeps_are_bounded fuel letter st e :
extract_letter_entries fuel letter = Some (st, e) ->
Forall (fun s => DELAY <= s <= DELAY * MAX_ATTEMPTS) (sleeps (events st))
/\ foldr Z.add 0 (sleeps (events st))
   <= 550 * (Z.of_nat (length (pages_fetched (events st))) + 1).
Proof.
intros Hrun.
destruct (loop_ends _ _ _ _ _ Hrun) as (k & st0 & _ & Hafter & Hlast).
destruct (sleeps_running _ _ _ Hafter) as (Ha & Hs & Hsum).
unfold MAX_ATTEMPTS in Ha.
revert Hlast. iteration_split st0;
  intros Hit; inversion Hit; subst; clear Hit; simpl; rewrite ?Hcode;
  simpl; (split; [exact Hs|]); try rewrite Nat2Z.inj_succ; nia.
Qed.

(** While the loop goes on, the fetches that failed in a row were all of
    the URL the loop holds. *)
Lemma failed_url_running k letter st :
after k letter (start letter) = Some st ->
forall u, url st = Some u ->
  take (failed_in_a_row (events st)) (urls_fetched (events st))
  = repeat u (failed_in_a_row (events st)).
Proof.
apply (after_invariant _ _ _ _
         (fun st => forall u, url st = Some u ->
            take (failed_in_a_row (events st)) (urls_fetched (events st))
            = repeat u (failed_in_a_row (events st)))).
- reflexivity.
- clear st. intros st st' Hst. iteration_split st;
    intros Hit; inversion Hit; subst; clear Hit; simpl; rewrite ?Hcode;
    simpl; try reflexivity.
  intros u' Hu'. inversion Hu'; subst. simpl. f_equal.
  apply Hst. reflexivity.
Qed.

(** X7: the crawl gives up only at the retry ceiling: when it ends at the
    [break], the last [MAX_ATTEMPTS + 1] = 11 fetches were all of the URL
    it holds and none was answered with status 200. *)
Theorem give_up_only_at_ceiling fuel letter st :
extract_letter_entries fuel letter = Some (st, GaveUp) ->
exists u,
  url st = Some u
  /\ attempt st = MAX_ATTEMPTS + 1
  /\ failed_in_a_row (events st) = 11%nat
  /\ take 11 (urls_fetched (events st)) = repeat u 11.
Proof.
intros Hrun.
destruct (loop_ends _ _ _ _ _ Hrun) as (k & st0 & _ & Hafter & Hlast).
destruct (attempt_counts _ _ _ _ _ _ _ Hafter) as [Hcount Hle].
pose proof (failed_url_running _ _ _ Hafter) as Hurls.
revert Hlast. iteration_split st0;
  intros Hit; inversion Hit; subst; clear Hit.
assert (Hn : failed_in_a_row (events st0) = 10%nat)
  by (unfold MAX_ATTEMPTS in *; lia).
exists u. simpl. rewrite Hcode, Hn.
split; [reflexivity|]. split; [unfold MAX_ATTEMPTS in *; lia|].
split; [reflexivity|].
specialize (Hurls u eq_refl). rewrite Hn in Hurls.
change (take 11 (u :: urls_fetched (events st0)))
  with (u :: take 10 (urls_fetched (events st0))).
rewrite Hurls. reflexivity.
Qed.

(** X8: the crawl ends at the condition of its loop only after a page
    without next link: the loop then holds no URL, the last page fetched
    has no [rel=next] anchor, and every page fetched has been yielded. *)
Theorem exhausted_after_last_page fuel letter st :
extract_letter_entries fuel letter = Some (st, Exhausted) ->
url st = None
/\ exists content rest,
     pages_fetched (events st) = content :: rest
     /\ rel_next content = None
     /\ length (yielded st) = S (length rest).
Proof.
intros Hrun.
destruct (loop_ends _ _ _ _ _ Hrun) as (k & st0 & _ & Hafter & Hlast).
pose proof (fun u => url_truthy _ _ _ _ _ _ _ u Hafter) as Ht.
pose proof (url_from_last_page _ _ _ _ _ _ _ Hafter) as Hpage.
pose proof (yielded_running _ _ _ Hafter) as Hy.
revert Hlast. iteration_split st0;
  intros Hit; inversion Hit; subst; clear Hit.
- rewrite (Ht _ eq_refl) in Htruthy. discriminate.
- split; [exact Hurl|].
  destruct (pages_fetched (events st)) as [|content rest];
    [discriminate|].
  exists content, rest. split; [reflexivity|]. split.
  + unfold get_next in Hpage.
    destruct (rel_next content) as [[href|]|]; [discriminate..|reflexivity].
  + apply Forall2_length in Hy. rewrite <- Hy, length_rev. reflexivity.
Qed.


(** While the loop goes on, each iteration has made one fetch, and the
    fetches are no more than eleven a page and the attempts on the
    current page. *)
Lemma fetches_running k letter st :
after k letter (start letter) = Some st ->
0 <= attempt st <= MAX_ATTEMPTS
/\ Z.of_nat (fetches st)
   <= 11 * Z.of_nat (length (pages_fetched (events st))) + attempt st.
Proof.
apply (after_invariant _ _ _ _
         (fun st =>
            0 <= attempt st <= MAX_ATTEMPTS
            /\ Z.of_nat (fetches st)
               <= 11 * Z.of_nat (length (pages_fetched (events st)))
                  + attempt st)).
- simpl. unfold MAX_ATTEMPTS. lia.
- clear st. intros st st' (Ha & Hf). iteration_split st;
    intros Hit; inversion Hit; subst; clear Hit; simpl; rewrite ?Hcode;
    unfold MAX_ATTEMPTS in *; simpl length; lia.
Qed.

(** X10: the crawl does not fetch without end on a site that stops
    serving pages: whatever the answers, it makes at most eleven fetches
    for each page answered with status 200, and eleven more. *)
Theorem fetches_per_page fuel letter st e :
extract_letter_entries fuel letter = Some (st, e) ->
Z.of_nat (fetches st)
<= (MAX_ATTEMPTS + 1) * (Z.of_nat (length (pages_fetched (events st))) + 1).
Proof.
intros Hrun.
destruct (loop_ends _ _ _ _ _ Hrun) as (k & st0 & _ & Hafter & Hlast).
destruct (fetches_running _ _ _ Hafter) as (Ha & Hf).
revert Hlast. iteration_split st0;
  intros Hit; inversion Hit; subst; clear Hit; simpl; rewrite ?Hcode;
  unfold MAX_ATTEMPTS in *; simpl length; lia.
Qed.

(** X11: the crawl ends when the site stops answering with status 200: if
    no fetch from the [N]-th on is answered with status 200, the loop
    ends within [N + MAX_ATTEMPTS + 1] iterations. *)
Theorem crawl_ends_when_pages_stop N letter :
(forall n u content, (N <= n)%nat ->
   urlopen letter n u <> Ok (200, content)) ->
exists r,
  extract_letter_entries (N + Z.to_nat (MAX_ATTEMPTS + 1)) letter = Some r.
Proof.
intros Hstop.
destruct (extract_letter_entries (N + Z.to_nat (MAX_ATTEMPTS + 1)) letter)
  as [r|] eqn:Hrun; [exists r; reflexivity|].
exfalso. destruct (loop_None _ _ _ Hrun) as (st & Hafter).
pose proof (after_fetches _ _ _ _ Hafter) as Hk. simpl in Hk.
assert (H : 0 <= attempt st <= MAX_ATTEMPTS
            /\ Z.of_nat (fetches st) <= Z.of_nat N + attempt st).
{ revert Hafter.
  apply (after_invariant _ _ _ _
           (fun st => 0 <= attempt st <= MAX_ATTEMPTS
                      /\ Z.of_nat (fetches st) <= Z.of_nat N + attempt st)).
  - simpl. unfold MAX_ATTEMPTS. lia.
  - clear st Hk. intros st st' (Ha & Hf). iteration_split st;
      intros Hit; inversion Hit; subst; clear Hit; simpl;
      unfold MAX_ATTEMPTS in *; try lia.
    apply Z.eqb_eq in Hcode. subst code.
    destruct (le_lt_dec N (fetches st)) as [Hge|Hlt]; [|lia].
    exfalso. exact (Hstop _ _ _ Hge Hopen). }
unfold MAX_ATTEMPTS in *. simpl in Hk. lia.
Qed.

End CrawlFacts.

(** ** More on the tasks and the batch *)

Section BatchFacts.

Variable html : Type.
Variable word_lists : html -> list (list li_tag).
Variable rel_next : html -> option (option str).
Variable urlopen : str -> nat -> str -> result (Z * html).
Variable casefold : str -> str.
Variable set_order : list str -> list str.
Variable format : str -> str -> str.

Local Abbreviation extract_letter_entries :=
  (extract_letter_entries html word_lists rel_next urlopen).
Local Abbreviation all_data := (all_data casefold set_order).
Local Abbreviation download_letter_entries :=
  (download_letter_entries html word_lists rel_next urlopen
     casefold set_order format).
Local Abbreviation tasks :=
  (tasks html word_lists rel_next urlopen casefold set_order format).
Local Abbreviation download_entries :=
  (download_entries html word_lists rel_next urlopen
     casefold set_order format).

(** X12: the user sees Done for a letter exactly when the file of the
    letter has been written: a task that ends gives the message Done to
    [progress_callback] if and only if it returns without exception. *)
Theorem done_means_written fuel letter file remove_dead fs r log :
download_letter_entries fuel letter file remove_dead fs = Some (r, log) ->
lit "Done" ∈ progress_messages log <-> exists fs', r = Ok fs'.
Proof.
rewrite download_letter_entries_eq.
destruct (extract_letter_entries fuel letter) as [[st e]|] eqn:Hrun;
  [|discriminate].
assert (Hnot : lit "Done" ∉ progress_messages (events st)).
{ set (on_site := fun u : str => exists path, u = SITE ++ path).
  assert (Hsite : Forall on_site (urls_fetched (events st))
                  /\ Forall on_site (progress_messages (events st))
                  /\ forall u, url st = Some u -> on_site u).
  { revert Hrun.
    apply (ended_invariant html word_lists rel_next urlopen
             (fun st => Forall on_site (urls_fetched (events st))
                        /\ Forall on_site (progress_messages (events st))
                        /\ forall u, url st = Some u -> on_site u)).
    - split; [constructor|]. split; [constructor|].
      intros u Hu. inversion Hu.
      exists (lit "/browse.php?character=" ++ letter). reflexivity.
    - intros s s' o. apply on_site_step. }
  destruct Hsite as (_ & Hmsg & _). rewrite Forall_forall in Hmsg.
  intros Hin. destruct (Hmsg _ Hin) as [path Hpath]. discriminate. }
destruct (entries_of (st, e)) as [entries|x];
  intros H; inversion H; subst; clear H; simpl.
- split; [eauto | intros _; left].
- split; [intros Hin; contradiction | intros [fs' H]; discriminate].
Qed.

Lemma tasks_frame fuel file remove_dead letters : forall fs fs',
tasks fuel letters file remove_dead fs = Some fs' ->
forall p, p ∉ map (format file) letters -> fs' !! p = fs !! p.
Proof.
induction letters as [|l letters IH]; intros fs fs' H p Hp; simpl in H.
- inversion H. reflexivity.
- apply not_elem_of_cons in Hp. destruct Hp as [Hp1 Hp2].
  rewrite download_letter_entries_eq in H.
  destruct (extract_letter_entries fuel l) as [r|]; [|discriminate].
  destruct (entries_of r) as [entries|e].
  + rewrite (IH _ _ H p Hp2). apply lookup_insert_ne. congruence.
  + exact (IH _ _ H p Hp2).
Qed.

(** X13: a batch leaves alone every file that is not the file of one of
    its letters. *)
Theorem batch_touches_only_its_files fuel letters file remove_dead
  max_workers fs fs' :
download_entries fuel letters file remove_dead max_workers fs
= Some (Ok fs') ->
forall p, p ∉ map (format file) letters -> fs' !! p = fs !! p.
Proof.
unfold download_entries. destruct (max_workers <=? 0); [discriminate|].
destruct (tasks fuel letters file remove_dead fs) as [fs1|] eqn:Hrun;
  [|discriminate].
intros H. inversion H; subst. eapply tasks_frame, Hrun.
Qed.

(** X14: the batch does not report the failures of its tasks: when the
    crawl of every letter ends with an exception, [download_entries]
    still returns without one, and no file has changed. *)
Theorem batch_hides_failures fuel letters file remove_dead max_workers fs :
0 < max_workers ->
(forall l, l ∈ letters ->
   exists st e, extract_letter_entries fuel l = Some (st, Failed e)) ->
download_entries fuel letters file remove_dead max_workers fs
= Some (Ok fs).
Proof.
intros Hw Hfail. unfold download_entries.
destruct (Z.leb_spec max_workers 0); [lia|].
assert (Hrun : tasks fuel letters file remove_dead fs = Some fs).
{ clear -Hfail. induction letters as [|l letters IH]; [reflexivity|].
  simpl. rewrite download_letter_entries_eq.
  destruct (Hfail l) as (st & e & ->); [left|]. simpl.
  apply IH. intros l' Hl'. apply Hfail. right. exact Hl'. }
rewrite Hrun. reflexivity.
Qed.

(** X15: the order in which the letters are submitted does not change
    the files the batch leaves, when the letters have distinct files and
    their crawls end. *)
Theorem batch_order_irrelevant fuel letters letters' file remove_dead
  max_workers fs :
Permutation letters letters' ->
NoDup (map (format file) letters) ->
(forall l, l ∈ letters -> extract_letter_entries fuel l <> None) ->
download_entries fuel letters file remove_dead max_workers fs
= download_entries fuel letters' file remove_dead max_workers fs.
Proof.
intros Hperm Hnd Hends. unfold download_entries.
destruct (max_workers <=? 0); [reflexivity|].
assert (Hnd' : NoDup (map (format file) letters'))
  by (rewrite <- Hperm; exact Hnd).
assert (Hends' : forall l, l ∈ letters' ->
                   extract_letter_entries fuel l <> None)
  by (intros l Hl; apply Hends; rewrite Hperm; exact Hl).
destruct (tasks_files html word_lists rel_next urlopen casefold set_order format
            fuel file remove_dead letters fs
            Hnd Hends) as (fs1 & -> & Hout1 & Hin1).
destruct (tasks_files html word_lists rel_next urlopen casefold set_order format
            fuel file remove_dead letters' fs
            Hnd' Hends') as (fs2 & -> & Hout2 & Hin2).
do 2 f_equal. apply map_eq. intros p.
destruct (decide (p ∈ map (format file) letters)) as [Hp|Hp].
- apply list_elem_of_fmap in Hp. destruct Hp as (l & -> & Hl).
  rewrite (Hin1 _ Hl). symmetry. apply Hin2. rewrite <- Hperm. exact Hl.
- rewrite (Hout1 _ Hp). symmetry. apply Hout2. rewrite <- Hperm. exact Hp.
Qed.

(** X19: with Replace the file of a letter is made of the entries of the
    pages answered with status 200, page after page in the order of the
    fetches, each entry as the page gives it. *)
Theorem replace_writes_the_pages fuel letter file fs fs' log :
download_letter_entries fuel letter file true fs = Some (Ok fs', log) ->
exists pages,
  Forall2 (fun content entries =>
             extract_page_entries html word_lists content = Ok entries)
    (rev (pages_fetched log)) pages
  /\ fs' !! format file letter = Some (written (concat pages)).
Proof.
rewrite download_letter_entries_eq.
destruct (extract_letter_entries fuel letter) as [[st e]|] eqn:Hrun;
  [|discriminate].
destruct (loop_ends _ _ _ _ _ _ _ _ _ Hrun)
  as (k & st0 & _ & Hafter & Hlast).
pose proof (yielded_running _ _ _ _ _ _ _ Hafter) as Hy.
unfold entries_of, pages_of. simpl.
destruct e as [| |x]; simpl; intros H; inversion H; subst; clear H;
  exists (yielded st); (split; [|apply lookup_insert_eq]); simpl;
  (destruct (quiet_last_step _ _ _ _ _ _ _ _ Hlast) as [-> ->];
   [discriminate | exact Hy]).
Qed.

End BatchFacts.

(** ** More on the files *)

(** X16: a file written from clean entries is read back, line by line and
    stripped, as these entries; the file of no entry is read back as one
    empty entry. *)
Theorem written_reads_back d :
Forall clean d ->
map strip (readlines (written d)) = match d with [] => [[]] | _ => d end.
Proof.
intros Hd. destruct d as [|x d]; [reflexivity|].
apply readlines_written; [exact Hd | discriminate].
Qed.

Section BlankLine.

Variable casefold : str -> str.
Variable set_order : list str -> list str.

Hypothesis set_order_elem : forall l x, x ∈ set_order l <-> x ∈ l.
Hypothesis casefold_nil : casefold [] = [].
Hypothesis casefold_nonempty : forall x, casefold x = [] -> x = [].

(** X17: under Union a blank line of the prior file is an entry like the
    others: when the prior file has a line of white space only, as the
    file written for no entry has, the file written begins with an empty
    line. *)
Theorem blank_line_stays content entries :
[] ∈ map strip (readlines content) ->
exists text,
  written (all_data casefold set_order false (Some content) entries)
  = LF :: text.
Proof.
intros Hblank.
pose proof (union_data_sorted casefold set_order content entries) as Hs.
assert (Hin : [] ∈ all_data casefold set_order false (Some content) entries)
  by (apply (union_data_elem casefold set_order set_order_elem); left;
      exact Hblank).
destruct (all_data casefold set_order false (Some content) entries)
  as [|h rest]; [inversion Hin|].
assert (Hh : h = []).
{ apply elem_of_cons in Hin. destruct Hin as [Hin|Hin]; [auto|].
  apply casefold_nonempty.
  inversion Hs as [|? ? _ Hall]; subst. rewrite Forall_forall in Hall.
  specialize (Hall _ Hin). unfold key_le in Hall.
  rewrite casefold_nil in Hall.
  destruct (casefold h); [reflexivity | discriminate]. }
subst h. rewrite written_cons. eexists. reflexivity.
Qed.

End BlankLine.

(** X18: the letters named on the command line are put in upper case and
    the input file is not read; the letters of an input file, written
    one per line, are taken as they are, without the change of case. *)
Theorem letters_of_a_run upper d ifile :
d <> [] ->
Forall clean d ->
main_letters upper d ifile = Ok (map upper d)
/\ main_letters upper [] (Some (written d)) = Ok d.
Proof.
intros Hne Hd. split.
- unfold main_letters. destruct d as [|x d]; [contradiction | reflexivity].
- unfold main_letters. simpl. f_equal.
  apply readlines_written; assumption.
Qed.

(** ** The further properties at work *)

Lemma extract_page_entries_words_witness :
exists ul rest,
  page_lists ragged = ul :: rest
  /\ (None ∉ ul)
  /\ [lit "apple"; lit "banana"]
     = filter (fun s : str => s <> []) (omap (mbind id) ul)
  /\ Forall (fun e => e <> []) [lit "apple"; lit "banana"].
Proof.
assert (H : extract_page_entries page page_lists ragged
            = Ok [lit "apple"; lit "banana"])
  by (vm_compute; reflexivity).
exact (extract_page_entries_words page page_lists ragged
         [lit "apple"; lit "banana"] H).
Defined.

Lemma fetches_stay_on_site_witness :
let st :=
  final_state
    (extract_letter_entries page page_lists page_next steady 3 (lit "A")) in
Forall (fun u =>
          (exists path, u = SITE ++ path)
          /\ (u = API (lit "A")
              \/ exists content href,
                   content ∈ pages_fetched (events st)
                   /\ page_next content = Some (Some href)
                   /\ u = SITE ++ href))
  (urls_fetched (events st)).
Proof.
intros st.
assert (Hrun : extract_letter_entries page page_lists page_next steady
                 3 (lit "A") = Some (st, Exhausted))
  by (vm_compute; reflexivity).
exact (fetches_stay_on_site page page_lists page_next steady 3 (lit "A")
         st Exhausted Hrun).
Defined.

Lemma progress_announces_fetches_witness :
let st :=
  final_state
    (extract_letter_entries page page_lists page_next steady 3 (lit "A")) in
fetches st = length (urls_fetched (events st))
/\ progress_messages (events st) = urls_fetched (events st)
/\ last (urls_fetched (events st)) = Some (API (lit "A")).
Proof.
intros st.
assert (Hrun : extract_letter_entries page page_lists page_next steady
                 3 (lit "A") = Some (st, Exhausted))
  by (vm_compute; reflexivity).
exact (progress_announces_fetches page page_lists page_next steady
         3 (lit "A") st Exhausted Hrun).
Defined.

Lemma yielded_are_pages_fetched_witness :
let st :=
  final_state
    (extract_letter_entries page page_lists page_next overloaded
       12 (lit "A")) in
Forall2 (fun content entries =>
           extract_page_entries page page_lists content = Ok entries)
  (rev (pages_fetched (events st))) (yielded st).
Proof.
intros st.
assert (Hrun : extract_letter_entries page page_lists page_next overloaded
                 12 (lit "A") = Some (st, GaveUp))
  by (vm_compute; reflexivity).
assert (Hok : forall x, GaveUp <> Failed x) by discriminate.
exact (yielded_are_pages_fetched page page_lists page_next overloaded
         12 (lit "A") st GaveUp Hrun Hok).
Defined.

Lemma sleeps_are_bounded_witness :
let st :=
  final_state
    (extract_letter_entries page page_lists page_next overloaded
       12 (lit "A")) in
Forall (fun s => DELAY <= s <= DELAY * MAX_ATTEMPTS) (sleeps (events st))
/\ foldr Z.add 0 (sleeps (events st))
   <= 550 * (Z.of_nat (length (pages_fetched (events st))) + 1).
Proof.
intros st.
assert (Hrun : extract_letter_entries page page_lists page_next overloaded
                 12 (lit "A") = Some (st, GaveUp))
  by (vm_compute; reflexivity).
exact (sleeps_are_bounded page page_lists page_next overloaded
         12 (lit "A") st GaveUp Hrun).
Defined.

Lemma give_up_only_at_ceiling_witness :
let st :=
  final_state
    (extract_letter_entries page page_lists page_next overloaded
       12 (lit "A")) in
exists u,
  url st = Some u
  /\ attempt st = MAX_ATTEMPTS + 1
  /\ failed_in_a_row (events st) = 11%nat
  /\ take 11 (urls_fetched (events st)) = repeat u 11.
Proof.
intros st.
assert (Hrun : extract_letter_entries page page_lists page_next overloaded
                 12 (lit "A") = Some (st, GaveUp))
  by (vm_compute; reflexivity).
exact (give_up_only_at_ceiling page page_lists page_next overloaded
         12 (lit "A") st Hrun).
Defined.

Lemma exhausted_after_last_page_witness :
let st :=
  final_state
    (extract_letter_entries page page_lists page_next steady 3 (lit "A")) in
url st = None
/\ exists content rest,
     pages_fetched (events st) = content :: rest
     /\ page_next content = None
     /\ length (yielded st) = S (length rest).
Proof.
intros st.
assert (Hrun : extract_letter_entries page page_lists page_next steady
                 3 (lit "A") = Some (st, Exhausted))
  by (vm_compute; reflexivity).
exact (exhausted_after_last_page page page_lists page_next steady
         3 (lit "A") st Hrun).
Defined.


Lemma fetches_per_page_witness :
let st :=
  final_state
    (extract_letter_entries page page_lists page_next overloaded
       12 (lit "A")) in
Z.of_nat (fetches st)
<= (MAX_ATTEMPTS + 1) * (Z.of_nat (length (pages_fetched (events st))) + 1).
Proof.
intros st.
assert (Hrun : extract_letter_entries page page_lists page_next overloaded
                 12 (lit "A") = Some (st, GaveUp))
  by (vm_compute; reflexivity).
exact (fetches_per_page page page_lists page_next overloaded
         12 (lit "A") st GaveUp Hrun).
Defined.

Lemma crawl_ends_when_pages_stop_witness :
exists r,
  extract_letter_entries page page_lists page_next overloaded
    (1 + Z.to_nat (MAX_ATTEMPTS + 1)) (lit "A")
  = Some r.
Proof.
apply (crawl_ends_when_pages_stop page page_lists page_next overloaded
         1 (lit "A")).
intros n u content Hn. unfold overloaded, scripted.
destruct n as [|n]; [lia|]. simpl. destruct n; discriminate.
Defined.

Lemma done_means_written_witness :
let run :=
  download_letter_entries page page_lists page_next steady
    ascii_casefold (hash_order seed1) format0
    3 (lit "A") (lit "data/{0}.data") false ∅ in
lit "Done" ∈ progress_messages (log_of run)
<-> exists fs', outcome_of run = Ok fs'.
Proof.
intros run.
assert (Hrun : run = Some (outcome_of run, log_of run))
  by (vm_compute; reflexivity).
exact (done_means_written page page_lists page_next steady
         ascii_casefold (hash_order seed1) format0
         3 (lit "A") (lit "data/{0}.data") false ∅
         (outcome_of run) (log_of run) Hrun).
Defined.

Lemma replace_writes_the_pages_witness :
let run :=
  download_letter_entries page page_lists page_next steady
    ascii_casefold (hash_order seed1) format0
    3 (lit "A") (lit "data/{0}.data") true ∅ in
exists pages,
  Forall2 (fun content entries =>
             extract_page_entries page page_lists content = Ok entries)
    (rev (pages_fetched (log_of run))) pages
  /\ files_of (outcome_of run) !! format0 (lit "data/{0}.data") (lit "A")
     = Some (written (concat pages)).
Proof.
intros run.
assert (Hrun : run = Some (Ok (files_of (outcome_of run)), log_of run))
  by (vm_compute; reflexivity).
exact (replace_writes_the_pages page page_lists page_next steady
         ascii_casefold (hash_order seed1) format0
         3 (lit "A") (lit "data/{0}.data") ∅
         (files_of (outcome_of run)) (log_of run) Hrun).
Defined.

Lemma batch_touches_only_its_files_witness :
let fs : gmap str str := {[ lit "notes.txt" := lit "keep" ]} in
let run :=
  download_entries page page_lists page_next uneven
    ascii_casefold (hash_order seed1) format0
    12 [lit "A"; lit "B"] (lit "data/{0}.data") false 20 fs in
files_of (default (Raise ValueError) run) !! lit "notes.txt"
= fs !! lit "notes.txt".
Proof.
intros fs run.
assert (Hrun : run = Some (Ok (files_of (default (Raise ValueError) run))))
  by (vm_compute; reflexivity).
apply (batch_touches_only_its_files page page_lists page_next uneven
         ascii_casefold (hash_order seed1) format0
         12 [lit "A"; lit "B"] (lit "data/{0}.data") false 20 fs
         (files_of (default (Raise ValueError) run)) Hrun).
intros Hin. apply elem_of_cons in Hin. destruct Hin as [Hin|Hin].
- vm_compute in Hin. discriminate.
- apply list_elem_of_singleton in Hin. vm_compute in Hin. discriminate.
Defined.

Lemma batch_hides_failures_witness :
download_entries page page_lists page_next unreachable
  ascii_casefold (hash_order seed1) format0
  1 [lit "A"; lit "B"] (lit "data/{0}.data") false 20 ∅
= Some (Ok ∅).
Proof.
apply (batch_hides_failures page page_lists page_next unreachable
         ascii_casefold (hash_order seed1) format0
         1 [lit "A"; lit "B"] (lit "data/{0}.data") false 20 ∅).
- reflexivity.
- intros l Hl.
  exists (final_state
            (extract_letter_entries page page_lists page_next unreachable
               1 l)),
    (URLError (lit "timed out")).
  apply elem_of_cons in Hl. destruct Hl as [->|Hl].
  + vm_compute. reflexivity.
  + apply list_elem_of_singleton in Hl. subst l. vm_compute. reflexivity.
Defined.

Lemma batch_order_irrelevant_witness :
download_entries page page_lists page_next uneven
  ascii_casefold (hash_order seed1) format0
  12 [lit "A"; lit "B"] (lit "data/{0}.data") false 20 ∅
= download_entries page page_lists page_next uneven
    ascii_casefold (hash_order seed1) format0
    12 [lit "B"; lit "A"] (lit "data/{0}.data") false 20 ∅.
Proof.
apply (batch_order_irrelevant page page_lists page_next uneven
         ascii_casefold (hash_order seed1) format0
         12 [lit "A"; lit "B"] [lit "B"; lit "A"]
         (lit "data/{0}.data") false 20 ∅).
- apply perm_swap.
- apply NoDup_cons. split; [|apply NoDup_singleton].
  intros H. apply list_elem_of_singleton in H. discriminate.
- intros l Hl. apply elem_of_cons in Hl. destruct Hl as [->|Hl].
  + vm_compute. discriminate.
  + apply list_elem_of_singleton in Hl. subst l. vm_compute. discriminate.
Defined.

Lemma written_reads_back_witness :
let d := [lit "apple"; lit "banana"] in
Forall clean d /\ map strip (readlines (written d)) = d.
Proof.
intros d.
assert (Hd : Forall clean d) by (repeat constructor; discriminate).
split; [exact Hd | exact (written_reads_back d Hd)].
Defined.

Lemma blank_line_stays_witness :
exists text,
  written (all_data ascii_casefold (hash_order seed1) false
             (Some (written [])) [lit "apple"])
  = LF :: text.
Proof.
apply (blank_line_stays ascii_casefold (hash_order seed1)
         (hash_order_elem seed1) eq_refl).
- intros x H. destruct x; [reflexivity | discriminate].
- left.
Defined.

Lemma letters_of_a_run_witness :
let d := [lit "a"; lit "b"] in
main_letters ascii_upper d None = Ok (map ascii_upper d)
/\ main_letters ascii_upper [] (Some (written d)) = Ok d.
Proof.
intros d.
assert (Hne : d <> []) by discriminate.
assert (Hd : Forall clean d) by (repeat constructor; discriminate).
exact (letters_of_a_run ascii_upper d None Hne Hd).
Defined.
